(** * Browrooms: the [Website] fetcher of [Browrooms.py]

    A shallow embedding of class [Website] (URL parsing, connecting,
    request writing, response reading with the three candidate
    decodings, redirect resolution, closing) together with the parts of
    the Python library it calls, and the properties of the fetcher that
    follow from the code.

    Python [str] values are sequences of Unicode code points, [bytes]
    values are sequences of bytes; sockets are peers of an explicit
    network, and every socket operation is recorded in a trace. *)

From Stdlib Require Import String Ascii Init.Byte Strings.Byte.
From Stdlib Require Import NArith ZArith Bool Lia List.
Import ListNotations.

Local Open Scope N_scope.
Local Open Scope list_scope.

(** ** Python values *)

(** A [str] is a sequence of code points, a [bytes] a sequence of bytes. *)
Definition str := list N.
Definition bytes := list byte.

(** A string literal of the source (ASCII text). *)
Definition lit (s : string) : str :=
  map N_of_ascii (list_ascii_of_string s).

(** ['\r\n'] *)
Definition CRLF : str := [13; 10].

(** ['�'], the replacement character the decoders put in place of what
    they cannot decode. *)
Definition REPLACEMENT : N := 0xFFFD.

(** The exceptions that the code under study can meet. All of them are
    subclasses of [Exception]; [OSError] is [socket.error]. *)
Inductive exn : Type :=
  | ValueError
  | IndexError
  | OverflowError
  | UnboundLocalError
  | UnicodeEncodeError
  | OSError.

(** The outcome of a Python expression or call: a value, or a raised
    exception. *)
Inductive outcome (A : Type) : Type :=
  | Ok (a : A)
  | Raise (e : exn).
Arguments Ok {A} a.
Arguments Raise {A} e.

Definition obind {A B} (o : outcome A) (k : A -> outcome B) : outcome B :=
  match o with
  | Ok a => k a
  | Raise e => Raise e
  end.

(** ** [str] operations used by the source *)

Definition str_eqb (a b : str) : bool :=
  if list_eq_dec N.eq_dec a b then true else false.

(** [x in s] for a single character [x]. *)
Definition char_in (c : N) (s : str) : bool := existsb (N.eqb c) s.

(** [s.startswith(p)] *)
Fixpoint startswith (p s : str) : bool :=
  match p, s with
  | [], _ => true
  | _ :: _, [] => false
  | a :: p', b :: s' => (a =? b) && startswith p' s'
  end.

(** [p in s] for strings: [p] occurs somewhere in [s]. *)
Fixpoint str_in (p s : str) : bool :=
  startswith p s ||
  match s with
  | [] => false
  | _ :: s' => str_in p s'
  end.

(** [s.split(sep, 1)] for a non-empty separator: the text before the first
    occurrence of [sep] and the text after it, or [None] when [sep] does
    not occur (the list returned by Python then has the single element
    [s]). *)
Fixpoint split_once (sep s : str) : option (str * str) :=
  if startswith sep s then Some ([], skipn (length sep) s)
  else match s with
       | [] => None
       | c :: s' =>
         match split_once sep s' with
         | Some (a, b) => Some (c :: a, b)
         | None => None
         end
       end.

(** [s.split(sep)] for a non-empty separator. The recursion follows the
    characters of [s]; [k] counts the characters of a separator just
    matched that are still to be skipped, [cur] is the piece being read,
    in reverse. *)
Fixpoint split_go (sep s : str) (k : nat) (cur : str) : list str :=
  match s with
  | [] => [rev cur]
  | c :: s' =>
    match k with
    | S k' => split_go sep s' k' cur
    | O =>
      if startswith sep s
      then rev cur :: split_go sep s' (pred (length sep)) []
      else split_go sep s' O (c :: cur)
    end
  end.

Definition split (sep s : str) : list str := split_go sep s O [].

(** The characters [str.isspace] accepts, which [str.strip] removes. *)
Definition isspace (c : N) : bool :=
  ((9 <=? c) && (c <=? 13)) || ((28 <=? c) && (c <=? 32)) ||
  (c =? 0x85) || (c =? 0xA0) || (c =? 0x1680) ||
  ((0x2000 <=? c) && (c <=? 0x200A)) ||
  (c =? 0x2028) || (c =? 0x2029) || (c =? 0x202F) || (c =? 0x205F) ||
  (c =? 0x3000).

Fixpoint lstrip (s : str) : str :=
  match s with
  | c :: s' => if isspace c then lstrip s' else s
  | [] => []
  end.

Definition rstrip (s : str) : str := rev (lstrip (rev s)).

(** [s.strip()] *)
Definition strip (s : str) : str := rstrip (lstrip s).

(** [s.lstrip(chars)], for the characters that [f] accepts. *)
Fixpoint dropwhile (f : N -> bool) (s : str) : str :=
  match s with
  | c :: s' => if f c then dropwhile f s' else s
  | [] => []
  end.

(** [s.lower()] on the ASCII letters. The source uses [lower] only in
    [line.lower().startswith("location:")]. The one character outside ASCII
    whose lower-case form holds a letter of [location] is U+0130, and its
    form is [i] with a combining dot, which the [o] that must follow does
    not match; so on that test the ASCII mapping and the full Unicode
    mapping agree. *)
Definition lower_char (c : N) : N :=
  if (0x41 <=? c) && (c <=? 0x5A) then c + 32 else c.

Definition lower (s : str) : str := map lower_char s.

(** ** Codecs *)

(** [bytes.decode('latin-1', errors='replace')] and, being the same codec
    under its other name, [bytes.decode('ISO-8859-1', errors='replace')]:
    every byte is the code point of the same number. *)
Definition decode_latin1 (b : bytes) : str := map Byte.to_N b.

Definition decode_iso8859_1 (b : bytes) : str := decode_latin1 b.

(** A UTF-8 continuation byte, [10xxxxxx]. *)
Definition is_cont (c : N) : bool := (0x80 <=? c) && (c <? 0xC0).

(** [bytes.decode('utf-8', errors='replace')], after CPython's decoder: a
    well-formed sequence gives its code point; an invalid start byte, or
    the longest prefix of a sequence that an invalid byte cuts short, gives
    one [REPLACEMENT] and decoding resumes at the offending byte; a
    sequence that the end of the input cuts short gives one [REPLACEMENT]
    for what is left. *)
Fixpoint decode_utf8 (b : bytes) : str :=
  match b with
  | [] => []
  | b1 :: r1 =>
    let c1 := Byte.to_N b1 in
    if c1 <? 0x80 then c1 :: decode_utf8 r1
    else if c1 <? 0xC2 then REPLACEMENT :: decode_utf8 r1
    else if c1 <? 0xE0 then
      match r1 with
      | [] => [REPLACEMENT]
      | b2 :: r2 =>
        let c2 := Byte.to_N b2 in
        if is_cont c2
        then ((c1 - 0xC0) * 64 + (c2 - 0x80)) :: decode_utf8 r2
        else REPLACEMENT :: decode_utf8 r1
      end
    else if c1 <? 0xF0 then
      match r1 with
      | [] => [REPLACEMENT]
      | b2 :: r2 =>
        let c2 := Byte.to_N b2 in
        if negb (is_cont c2)
           || (if c2 <? 0xA0 then c1 =? 0xE0 else c1 =? 0xED)
        then REPLACEMENT :: decode_utf8 r1
        else
          match r2 with
          | [] => [REPLACEMENT]
          | b3 :: r3 =>
            let c3 := Byte.to_N b3 in
            if is_cont c3
            then ((c1 - 0xE0) * 4096 + (c2 - 0x80) * 64 + (c3 - 0x80))
                   :: decode_utf8 r3
            else REPLACEMENT :: decode_utf8 r2
          end
      end
    else if c1 <? 0xF5 then
      match r1 with
      | [] => [REPLACEMENT]
      | b2 :: r2 =>
        let c2 := Byte.to_N b2 in
        if negb (is_cont c2)
           || (if c2 <? 0x90 then c1 =? 0xF0 else c1 =? 0xF4)
        then REPLACEMENT :: decode_utf8 r1
        else
          match r2 with
          | [] => [REPLACEMENT]
          | b3 :: r3 =>
            let c3 := Byte.to_N b3 in
            if negb (is_cont c3) then REPLACEMENT :: decode_utf8 r2
            else
              match r3 with
              | [] => [REPLACEMENT]
              | b4 :: r4 =>
                let c4 := Byte.to_N b4 in
                if is_cont c4
                then ((c1 - 0xF0) * 262144 + (c2 - 0x80) * 4096
                      + (c3 - 0x80) * 64 + (c4 - 0x80)) :: decode_utf8 r4
                else REPLACEMENT :: decode_utf8 r3
              end
          end
      end
    else REPLACEMENT :: decode_utf8 r1
  end.

(** The byte of a number below 256. *)
Definition byte_of (n : N) : byte :=
  match Byte.of_N n with
  | Some b => b
  | None => x00
  end.

(** A code point that UTF-8 can encode: a Unicode scalar value. *)
Definition is_scalar (c : N) : bool :=
  (c <? 0xD800) || ((0xE000 <=? c) && (c <? 0x110000)).

(** The UTF-8 encoding of one scalar value. *)
Definition encode_cp (c : N) : bytes :=
  if c <? 0x80 then [byte_of c]
  else if c <? 0x800 then
    [byte_of (0xC0 + c / 64); byte_of (0x80 + c mod 64)]
  else if c <? 0x10000 then
    [byte_of (0xE0 + c / 4096); byte_of (0x80 + (c / 64) mod 64);
     byte_of (0x80 + c mod 64)]
  else
    [byte_of (0xF0 + c / 262144); byte_of (0x80 + (c / 4096) mod 64);
     byte_of (0x80 + (c / 64) mod 64); byte_of (0x80 + c mod 64)].

(** [str.encode()]: UTF-8; a surrogate (or a number that is no code point)
    raises [UnicodeEncodeError]. *)
Fixpoint encode (s : str) : outcome bytes :=
  match s with
  | [] => Ok []
  | c :: s' =>
    if is_scalar c
    then obind (encode s') (fun b => Ok (encode_cp c ++ b))
    else Raise UnicodeEncodeError
  end.

(** ** Library functions called by [__parse_url]

    [int] and [urllib.parse.urlparse] are modelled after CPython 3.11,
    whose character tables are those of Unicode 14.0. *)

(** [l[i]]: [IndexError] out of range. *)
Definition index {A} (l : list A) (i : nat) : outcome A :=
  match nth_error l i with
  | Some x => Ok x
  | None => Raise IndexError
  end.

Definition is_digit (c : N) : bool := (0x30 <=? c) && (c <=? 0x39).

Definition is_alpha (c : N) : bool :=
  ((0x41 <=? c) && (c <=? 0x5A)) || ((0x61 <=? c) && (c <=? 0x7A)).

(** The first digit of each run of ten decimal digits of Unicode 14.0,
    the version of the character database in CPython 3.11. *)
Definition decimal_zeros : list N :=
  [0x30; 0x660; 0x6F0; 0x7C0; 0x966; 0x9E6; 0xA66; 0xAE6; 0xB66; 0xBE6;
   0xC66; 0xCE6; 0xD66; 0xDE6; 0xE50; 0xED0; 0xF20; 0x1040; 0x1090; 0x17E0;
   0x1810; 0x1946; 0x19D0; 0x1A80; 0x1A90; 0x1B50; 0x1BB0; 0x1C40; 0x1C50;
   0xA620; 0xA8D0; 0xA900; 0xA9D0; 0xA9F0; 0xAA50; 0xABF0; 0xFF10; 0x104A0;
   0x10D30; 0x11066; 0x110F0; 0x11136; 0x111D0; 0x112F0; 0x11450; 0x114D0;
   0x11650; 0x116C0; 0x11730; 0x118E0; 0x11950; 0x11C50; 0x11D50; 0x11DA0;
   0x16A60; 0x16AC0; 0x16B50; 0x1D7CE; 0x1D7D8; 0x1D7E2; 0x1D7EC; 0x1D7F6;
   0x1E140; 0x1E2F0; 0x1E950; 0x1FBF0].

Fixpoint decimal_from (zeros : list N) (c : N) : option N :=
  match zeros with
  | [] => None
  | z :: zeros' =>
    if (z <=? c) && (c <? z + 10) then Some (c - z) else decimal_from zeros' c
  end.

(** The value of a decimal digit of any script, as [int] reads it. *)
Definition decimal (c : N) : option N := decimal_from decimal_zeros c.

(** The white space that [int] skips around a numeral: the ASCII white
    space, and the white space beyond ASCII. The separators U+001C to
    U+001F, which [str.isspace] accepts, are not skipped. *)
Definition int_isspace (c : N) : bool :=
  ((9 <=? c) && (c <=? 13)) || (c =? 32) ||
  (c =? 0x85) || (c =? 0xA0) || (c =? 0x1680) ||
  ((0x2000 <=? c) && (c <=? 0x200A)) ||
  (c =? 0x2028) || (c =? 0x2029) || (c =? 0x202F) || (c =? 0x205F) ||
  (c =? 0x3000).

(** [sys.get_int_max_str_digits()], unless configured otherwise. *)
Definition MAX_STR_DIGITS : nat := 4300.

(** The digits of an [int] literal after its sign: decimal digits, with
    single underscores allowed between two digits, and no more than
    [MAX_STR_DIGITS] digits. [seen] tells whether the previous character
    was a digit, [digits] counts the digits read. *)
Fixpoint int_digits (s : str) (acc : Z) (seen : bool) (digits : nat)
  : outcome Z :=
  match s with
  | [] =>
    if seen && (digits <=? MAX_STR_DIGITS)%nat then Ok acc
    else Raise ValueError
  | c :: s' =>
    match decimal c with
    | Some d => int_digits s' (10 * acc + Z.of_N d)%Z true (S digits)
    | None =>
      if (c =? 0x5F) && seen then int_digits s' acc false digits
      else Raise ValueError
    end
  end.

(** [int(s)] for a [str], after CPython 3.11: surrounding white space is
    dropped, a sign is allowed, anything else than a decimal numeral
    raises [ValueError], and so does a numeral of more than
    [MAX_STR_DIGITS] digits. *)
Definition int (s : str) : outcome Z :=
  match rev (dropwhile int_isspace (rev (dropwhile int_isspace s))) with
  | [] => Raise ValueError
  | c :: s' =>
    if c =? 0x2D
    then obind (int_digits s' 0%Z false 0) (fun z => Ok (- z)%Z)
    else if c =? 0x2B then int_digits s' 0%Z false 0
    else int_digits (c :: s') 0%Z false 0
  end.

Module Url.

(** The six-field result of [urllib.parse.urlparse]. *)
Record ParseResult : Type := {
  scheme : str;
  netloc : str;
  path : str;
  params : str;
  query : str;
  fragment : str
}.

Definition is_scheme_char (c : N) : bool :=
  is_alpha c || is_digit c || (c =? 0x2B) || (c =? 0x2D) || (c =? 0x2E).

(** A leading [scheme:], lower-cased, and what follows it. *)
Definition split_scheme (url : str) : str * str :=
  match split_once (lit ":") url with
  | Some (c :: s, rest) =>
    if is_alpha c && forallb is_scheme_char (c :: s)
    then (lower (c :: s), rest)
    else ([], url)
  | _ => ([], url)
  end.

(** The text up to the first of [/], [?] and [#], and the rest. *)
Fixpoint split_netloc (s : str) : str * str :=
  match s with
  | [] => ([], [])
  | c :: s' =>
    if (c =? 0x2F) || (c =? 0x3F) || (c =? 0x23) then ([], s)
    else let (a, b) := split_netloc s' in (c :: a, b)
  end.

(** [url.split(c, 1)] when [c] occurs in [url], else [url] and nothing. *)
Definition cut (c : str) (url : str) : str * str :=
  match split_once c url with
  | Some (a, b) => (a, b)
  | None => (url, [])
  end.

(** The text up to and with the last [/], and the rest. *)
Fixpoint split_last_slash (s : str) : str * str :=
  match s with
  | [] => ([], [])
  | c :: s' =>
    let (a, b) := split_last_slash s' in
    if char_in 0x2F s then (c :: a, b) else ([], s)
  end.

(** The parameters of the last path segment, after its first [;]. *)
Definition splitparams (url : str) : str * str :=
  let (dir, last) := split_last_slash url in
  match split_once (lit ";") last with
  | Some (a, b) => (dir ++ a, b)
  | None => (url, [])
  end.

Definition uses_params : list str :=
  map lit [""; "ftp"; "hdl"; "prospero"; "http"; "imap"; "https"; "shttp";
           "rtsp"; "rtspu"; "sip"; "sips"; "mms"; "sftp"; "tel"]%string.

(** [s.rpartition(c)[2]]: what follows the last [c], or [s] without [c]. *)
Fixpoint after_last (c : N) (s : str) : str :=
  match s with
  | [] => []
  | x :: s' =>
    if char_in c s' then after_last c s'
    else if x =? c then s' else s
  end.

(** The longest prefix of characters that [f] accepts, and the rest. *)
Fixpoint span (f : N -> bool) (s : str) : str * str :=
  match s with
  | c :: s' =>
    if f c then let (a, b) := span f s' in (c :: a, b) else ([], s)
  | [] => ([], [])
  end.

Definition is_hex (c : N) : bool :=
  is_digit c || ((0x41 <=? c) && (c <=? 0x46))
  || ((0x61 <=? c) && (c <=? 0x66)).

Definition hex_value (c : N) : N :=
  if is_digit c then c - 0x30
  else if c <=? 0x46 then c - 0x41 + 10 else c - 0x61 + 10.

(** [ipaddress._BaseV4._parse_octet]: a decimal numeral of at most three
    ASCII digits, without leading zero, not above 255. [None] stands for
    the [ValueError] raised otherwise. *)
Definition parse_octet (octet_str : str) : option N :=
  match octet_str with
  | [] => None
  | c :: _ =>
    if negb (forallb is_digit octet_str) then None
    else if (3 <? length octet_str)%nat then None
    else if negb (str_eqb octet_str (lit "0")) && (c =? 0x30) then None
    else
      let octet_int :=
        fold_left (fun a d => 10 * a + (d - 0x30)) octet_str 0 in
      if 255 <? octet_int then None else Some octet_int
  end.

(** All results of a list, if none failed. *)
Fixpoint all_some {A} (l : list (option A)) : option (list A) :=
  match l with
  | [] => Some []
  | Some x :: l' =>
    match all_some l' with
    | Some xs => Some (x :: xs)
    | None => None
    end
  | None :: _ => None
  end.

(** [ipaddress.IPv4Address(s)._ip], or [None] for [AddressValueError]. *)
Definition IPv4Address (addr_str : str) : option N :=
  if char_in 0x2F addr_str then None
  else
    match addr_str with
    | [] => None
    | _ :: _ =>
      let octets := split (lit ".") addr_str in
      if negb (length octets =? 4)%nat then None
      else
        match all_some (map parse_octet octets) with
        | Some values => Some (fold_left (fun a v => 256 * a + v) values 0)
        | None => None
        end
    end.

(** [ipaddress._BaseV6._parse_hextet]: one to four hexadecimal digits. *)
Definition parse_hextet (hextet_str : str) : option N :=
  if negb (forallb is_hex hextet_str) then None
  else if (4 <? length hextet_str)%nat then None
  else
    match hextet_str with
    | [] => None
    | _ :: _ =>
      Some (fold_left (fun a d => 16 * a + hex_value d) hextet_str 0)
    end.

(** ['%x' % v] for [v] below 65536. *)
Definition hex16 (v : N) : str :=
  let digit d := if d <? 10 then 0x30 + d else 0x61 + (d - 10) in
  match dropwhile (N.eqb 0)
          [v / 4096; (v / 256) mod 16; (v / 16) mod 16; v mod 16] with
  | [] => lit "0"
  | ds => map digit ds
  end.

(** [ipaddress._BaseV6._split_scope_id], keeping the address. *)
Definition split_scope_id (ip_str : str) : option str :=
  match split_once (lit "%") ip_str with
  | None => Some ip_str
  | Some (addr, scope_id) =>
    match scope_id with
    | [] => None
    | _ :: _ => if char_in 0x25 scope_id then None else Some addr
    end
  end.

Definition null {A} (l : list A) : bool :=
  match l with [] => true | _ :: _ => false end.

(** [ipaddress._BaseV6._ip_int_from_string]: the parts between colons,
    a dotted IPv4 address allowed as the last one, at most one [::] for a
    run of zero parts. *)
Definition ip_int_from_string (ip_str : str) : option N :=
  match ip_str with
  | [] => None
  | _ :: _ =>
    let parts := split (lit ":") ip_str in
    if (length parts <? 3)%nat then None
    else
      let suffixed :=
        if char_in 0x2E (last parts [])
        then
          match IPv4Address (last parts []) with
          | Some ipv4_int =>
            Some (removelast parts
                  ++ [hex16 ((ipv4_int / 65536) mod 65536);
                      hex16 (ipv4_int mod 65536)])
          | None => None
          end
        else Some parts in
      match suffixed with
      | None => None
      | Some parts =>
        if (9 <? length parts)%nat then None
        else
          let skips :=
            filter (fun i => null (nth i parts []))
                   (seq 1 (length parts - 2)) in
          let counts : option (nat * nat * nat) :=
            match skips with
            | [] =>
              if negb (length parts =? 8)%nat then None
              else if null (hd [] parts) then None
              else if null (last parts []) then None
              else Some (length parts, O, O)
            | [skip_index] =>
              let parts_hi := skip_index in
              let parts_lo := (length parts - skip_index - 1)%nat in
              let hi :=
                if null (hd [] parts)
                then match pred parts_hi with
                     | O => Some O
                     | S _ => None
                     end
                else Some parts_hi in
              let lo :=
                if null (last parts [])
                then match pred parts_lo with
                     | O => Some O
                     | S _ => None
                     end
                else Some parts_lo in
              match hi, lo with
              | Some parts_hi, Some parts_lo =>
                if (8 <=? parts_hi + parts_lo)%nat then None
                else Some (parts_hi, parts_lo,
                           (8 - (parts_hi + parts_lo))%nat)
              | _, _ => None
              end
            | _ :: _ :: _ => None
            end in
          match counts with
          | None => None
          | Some (parts_hi, parts_lo, parts_skipped) =>
            match all_some (map parse_hextet (firstn parts_hi parts)),
                  all_some (map parse_hextet
                              (skipn (length parts - parts_lo) parts)) with
            | Some his, Some los =>
              let ip_int := fold_left (fun a v => 65536 * a + v) his 0 in
              let ip_int := ip_int * 65536 ^ N.of_nat parts_skipped in
              Some (fold_left (fun a v => 65536 * a + v) los ip_int)
            | _, _ => None
            end
          end
      end
  end.

(** [ipaddress.IPv6Address(s)._ip], or [None] for [AddressValueError]. *)
Definition IPv6Address (addr_str : str) : option N :=
  if char_in 0x2F addr_str then None
  else
    match split_scope_id addr_str with
    | Some addr => ip_int_from_string addr
    | None => None
    end.

(** [_check_bracketed_host], [true] when it returns and [false] when it
    raises [ValueError]: the host is an IPv6 address, or a later version
    of the form [v], hexadecimal digits, a dot and more text. *)
Definition check_bracketed_host (hostname : str) : bool :=
  match hostname with
  | 0x76 :: rest =>
    match span is_hex rest with
    | (_ :: _, 0x2E :: c :: more) =>
      forallb (fun x => negb (x =? 0x0A)) (c :: more)
    | _ => false
    end
  | _ =>
    match IPv4Address hostname with
    | Some _ => false
    | None =>
      match IPv6Address hostname with
      | Some _ => true
      | None => false
      end
    end
  end.

(** [_check_bracketed_netloc], likewise: nothing stands before the
    bracket, and nothing but a port after it. *)
Definition check_bracketed_netloc (netloc : str) : bool :=
  let hostname_and_port := after_last 0x40 netloc in
  match split_once (lit "[") hostname_and_port with
  | Some (before_bracket, bracketed) =>
    if negb (null before_bracket) then false
    else
      let (hostname, port) := cut (lit "]") bracketed in
      if negb (null port) && negb (startswith (lit ":") port) then false
      else check_bracketed_host hostname
  | None =>
    let (hostname, _) := cut (lit ":") hostname_and_port in
    check_bracketed_host hostname
  end.

(** The characters whose compatibility normal form (NFKC, Unicode 14.0)
    holds one of [/?#@:], as U+2100 gives [a/c]. *)
Definition delimiters_under_NFKC : list N :=
  [0x2047; 0x2048; 0x2049; 0x2100; 0x2101; 0x2105; 0x2106; 0x2A74; 0xFE13;
   0xFE16; 0xFE55; 0xFE56; 0xFE5F; 0xFE6B; 0xFF03; 0xFF0F; 0xFF1A; 0xFF1F;
   0xFF20].

(** [_checknetloc], likewise. The source normalises the authority without
    its [@:#?] and raises when that changes it and the normal form holds
    one of [/?#@:]. The authority holds no [/], and normalisation neither
    makes nor removes any of the five but by the characters above, so the
    test comes to the presence of one of them; the normalisation itself
    is not modelled. *)
Definition checknetloc (netloc : str) : bool :=
  negb (existsb (fun c => char_in c delimiters_under_NFKC) netloc).

(** [urllib.parse.urlparse(url)], after CPython 3.11: leading control
    characters and spaces are dropped, tabs and line ends removed; then
    scheme, authority up to the first of [/?#] when the rest starts with
    [//] (square brackets in it must hold an IPv6 address), fragment,
    query, and the parameters cut off the path. *)
Definition urlparse (url : str) : outcome ParseResult :=
  let url := dropwhile (fun c => c <=? 0x20) url in
  let url :=
    filter (fun c => negb ((c =? 0x09) || (c =? 0x0D) || (c =? 0x0A))) url in
  let (scheme, url) := split_scheme url in
  let (netloc, url) :=
    if startswith (lit "//") url then split_netloc (skipn 2 url)
    else ([], url) in
  if xorb (char_in 0x5B netloc) (char_in 0x5D netloc)
  then Raise ValueError
  else if char_in 0x5B netloc && negb (check_bracketed_netloc netloc)
  then Raise ValueError
  else
    let (url, fragment) := cut (lit "#") url in
    let (url, query) := cut (lit "?") url in
    if negb (checknetloc netloc) then Raise ValueError
    else
      let (url, params) :=
        if existsb (str_eqb scheme) uses_params && char_in 0x3B url
        then splitparams url else (url, []) in
      Ok {| scheme := scheme; netloc := netloc; path := url;
            params := params; query := query; fragment := fragment |}.

End Url.

(** ** Sockets and the network *)

(** [ssl.SSLContext], by the two settings that decide what a TLS client
    checks of its peer. *)
Inductive VerifyMode : Type := CERT_NONE | CERT_OPTIONAL | CERT_REQUIRED.

Record SSLContext : Type := {
  check_hostname : bool;
  verify_mode : VerifyMode
}.

(** [ssl._create_unverified_context()] *)
Definition create_unverified_context : SSLContext :=
  {| check_hostname := false; verify_mode := CERT_NONE |}.

(** What one call of [recv] gives: some bytes (none at the end of the
    stream), or an exception. *)
Inductive recv_result : Type :=
  | Data (data : bytes)
  | RecvError (e : exn).

(** The other end of an established connection: what [sendall] does with
    the bytes it is given ([None]: they are sent), and what the successive
    calls of [recv] give after that request; when the list is exhausted the
    peer has closed the stream and [recv] gives no bytes. *)
Record peer : Type := {
  on_sendall : bytes -> option exn;
  on_recv : bytes -> list recv_result
}.

(** The result of wrapping (when asked to) and connecting a socket. *)
Inductive connect_result : Type :=
  | Connected (p : peer)
  | ConnectFails (e : exn).

(** The network: what becomes of the [n]-th socket of the run when it is
    connected to [(host, port)], wrapped by the given context for the given
    [server_hostname] or not wrapped. *)
Definition network : Type :=
  nat -> option (SSLContext * str) -> str * Z -> connect_result.

(** A socket object. *)
Record socket : Type := {
  sock_id : nat;
  sock_peer : peer
}.

(** What the program does to its sockets, in order. *)
Inductive event : Type :=
  | EConnect (id : nat) (tls : option (SSLContext * str))
             (address : str * Z) (established : bool)
  | ESend (id : nat) (data : bytes)
  | EClose (id : nat).

Record world : Type := {
  next_id : nat;
  trace : list event
}.

Definition emit (e : event) (w : world) : world :=
  {| next_id := next_id w; trace := trace w ++ [e] |}.

Definition new_socket (w : world) : nat * world :=
  (next_id w, {| next_id := S (next_id w); trace := trace w |}).

(** ** class [Website] *)

Record Website : Type := {
  url : str;
  parsed : Url.ParseResult;
  scheme : str;
  netloc : str;
  host : str;
  port : Z;
  cmd : str;
  browser_socket : option socket
}.

Definition set_browser_socket (self : Website) (s : option socket) : Website :=
  {| url := url self; parsed := parsed self; scheme := scheme self;
     netloc := netloc self; host := host self; port := port self;
     cmd := cmd self; browser_socket := s |}.

Definition set_cmd (self : Website) (c : str) : Website :=
  {| url := url self; parsed := parsed self; scheme := scheme self;
     netloc := netloc self; host := host self; port := port self;
     cmd := c; browser_socket := browser_socket self |}.

(** [Website.__parse_url], for [self.url = url]. The socket field is set
    afterwards, by [__init__]. *)
Definition parse_url (url : str) : outcome Website :=
  obind (Url.urlparse url) (fun parsed =>
  let scheme := Url.scheme parsed in
  let netloc := Url.netloc parsed in
  obind (index (split (lit ":") netloc) 0) (fun host =>
  let port := if str_eqb scheme (lit "https") then 443%Z else 80%Z in
  obind (if char_in 0x3A netloc
         then obind (index (split (lit ":") netloc) 1) int
         else Ok port) (fun port =>
  let cmd := Url.path parsed ++ Url.params parsed ++ Url.query parsed
             ++ Url.fragment parsed in
  Ok {| url := url; parsed := parsed; scheme := scheme; netloc := netloc;
        host := host; port := port; cmd := cmd;
        browser_socket := None |}))).

(** [except socket.error] *)
Definition is_socket_error (e : exn) : bool :=
  match e with
  | OSError => true
  | _ => false
  end.

(** [Website.__init__]: [Website(url)]. *)
Definition Website_init (net : network) (url : str) (w : world)
  : outcome Website * world :=
  match parse_url url with
  | Raise e => (Raise e, w)
  | Ok self =>
    let context := create_unverified_context in
    let (id, w) := new_socket w in
    let tls :=
      if (port self =? 443)%Z then Some (context, host self) else None in
    let address := (host self, port self) in
    match net id tls address with
    | Connected p =>
      (Ok (set_browser_socket self
             (Some {| sock_id := id; sock_peer := p |})),
       emit (EConnect id tls address true) w)
    | ConnectFails e =>
      if is_socket_error e
      then (Ok (set_browser_socket self None),
            emit (EConnect id tls address false) w)
      else (Raise e, emit (EConnect id tls address false) w)
    end
  end.

(** [Website.close] *)
Definition close (self : Website) (w : world) : world :=
  match browser_socket self with
  | Some s => emit (EClose (sock_id s)) w
  | None => w
  end.

(** [Website.get_location] *)
Fixpoint get_location_lines (lines : list str) : outcome (option str) :=
  match lines with
  | [] => Ok None
  | line :: lines' =>
    if startswith (lit "location:") (lower line)
    then obind (index (match split_once (lit ":") line with
                       | Some (a, b) => [a; b]
                       | None => [line]
                       end) 1)
               (fun v => Ok (Some (strip v)))
    else get_location_lines lines'
  end.

Definition get_location (response : str) : outcome (option str) :=
  get_location_lines (split CRLF response).

(** The error pages of the source. *)
Definition CONNECT_ERROR : str :=
  lit "<p>Error: Could not establish connection.</p>".
Definition UNKNOWN_ENCODING : str := lit "<p>Error: Unknown Encoding</p>".
Definition EMPTY_RESPONSE : str :=
  lit "<p>Error: Empty response from the server.</p>".
Definition RECEIVE_ERROR : str := lit "<p>Error receiving data.</p>".
Definition NO_LOCATION : str := lit "<p>Error: No new location provided.</p>".

Definition MOVED_PERMANENTLY : str := lit "HTTP/1.1 301 Moved Permanently".
Definition FOUND : str := lit "HTTP/1.1 302 Found".

(** The truth value of a [str]. *)
Definition truthy (s : str) : bool :=
  match s with
  | [] => false
  | _ :: _ => true
  end.

(** A computation that may follow redirects: [None] when the redirects go
    deeper than the fuel given, else its outcome and the world after it. *)
Definition run (A : Type) : Type := option (outcome A * world).

(** The statements of [handle_status] that follow a redirect:
    [redirect = Website(new_location)], [source = redirect.get_html()],
    [redirect.close()], [return source]. *)
Definition follow (get_html : Website -> world -> run str)
    (net : network) (new_location : str) (w : world) : run str :=
  match Website_init net new_location w with
  | (Raise e, w) => Some (Raise e, w)
  | (Ok redirect, w) =>
    match get_html redirect w with
    | None => None
    | Some (Raise e, w) => Some (Raise e, w)
    | Some (Ok source, w) => Some (Ok source, close redirect w)
    end
  end.

(** [Website.handle_status], given [get_html] for the object it makes. *)
Definition handle_status (get_html : Website -> world -> run str)
    (net : network) (response : str) (w : world) : run str :=
  if str_in MOVED_PERMANENTLY response || str_in FOUND response then
    match get_location response with
    | Raise e => Some (Raise e, w)
    | Ok (Some ((_ :: _) as new_location)) =>
      follow get_html net new_location w
    | Ok _ => Some (Ok NO_LOCATION, w)
    end
  else Some (Ok response, w).

(** How the [while True] loop of [get_html] is left. *)
Inductive loop_exit : Type :=
  | Break (response : option str)
  | Return (page : str)
  | LoopRaise (e : exn).

(** The reading loop of [get_html] over the successive results of
    [recv(512)], from given values of the three accumulators and of
    [response] ([None] while the name is not bound). *)
Fixpoint recv_loop (results : list recv_result)
    (response_utf8 response_latin1 response_iso : str)
    (response : option str) : loop_exit :=
  match results with
  | [] => Break response
  | RecvError e :: _ => LoopRaise e
  | Data [] :: _ => Break response
  | Data data :: results' =>
    let response_utf8 := response_utf8 ++ decode_utf8 data in
    let response_latin1 := response_latin1 ++ decode_latin1 data in
    let response_iso := response_iso ++ decode_iso8859_1 data in
    if negb (char_in REPLACEMENT response_utf8) then
      recv_loop results' response_utf8 response_latin1 response_iso
                (Some response_utf8)
    else if negb (char_in REPLACEMENT response_latin1) then
      recv_loop results' response_utf8 response_latin1 response_iso
                (Some response_latin1)
    else if negb (char_in REPLACEMENT response_iso) then
      recv_loop results' response_utf8 response_latin1 response_iso
                (Some response_iso)
    else Return UNKNOWN_ENCODING
  end.

(** The request of [get_html]. *)
Definition request_of (self : Website) : str :=
  let path :=
    if truthy (Url.path (parsed self)) then Url.path (parsed self)
    else lit "/" in
  lit "GET " ++ path ++ lit " HTTP/1.1" ++ CRLF
  ++ lit "Host: " ++ host self ++ CRLF
  ++ lit "Connection: close" ++ CRLF ++ CRLF.

(** The [try] block of [get_html], on the socket [s]. *)
Definition get_html_try (handle_status : str -> world -> run str)
    (self : Website) (s : socket) (w : world) : run str :=
  match encode (request_of self) with
  | Raise e => Some (Raise e, w)
  | Ok request =>
    let w := emit (ESend (sock_id s) request) w in
    match on_sendall (sock_peer s) request with
    | Some e => Some (Raise e, w)
    | None =>
      match recv_loop (on_recv (sock_peer s) request) [] [] [] None with
      | LoopRaise e => Some (Raise e, w)
      | Return page => Some (Ok page, w)
      | Break None => Some (Raise UnboundLocalError, w)
      | Break (Some response) =>
        if negb (truthy response) then Some (Ok EMPTY_RESPONSE, w)
        else handle_status response w
      end
    end
  end.

(** [Website.get_html]; [fuel] bounds the depth of the redirects. *)
Fixpoint get_html (fuel : nat) (net : network) (self : Website) (w : world)
  : run str :=
  match fuel with
  | O => None
  | S fuel' =>
    match browser_socket self with
    | None => Some (Ok CONNECT_ERROR, w)
    | Some s =>
      match get_html_try (handle_status (get_html fuel' net) net) self s w with
      | None => None
      | Some (Raise e, w) => Some (Ok RECEIVE_ERROR, w)
      | Some (Ok page, w) => Some (Ok page, w)
      end
    end
  end.

(** The page that [Browser.fetch_html] shows when [get_html] gives none. *)
Definition FAILED_TO_LOAD : str := lit "<p>Failed to load content.</p>".

(** The fetch entry point: what [Browser.fetch_html] and [Browser.getWeb]
    do with a URL, up to the page they hand to the display: make the
    [Website], get its page, and close the [Website] when a page came
    back. *)
Definition fetch (fuel : nat) (net : network) (url : str) (w : world)
  : run str :=
  match Website_init net url w with
  | (Raise e, w) => Some (Raise e, w)
  | (Ok web, w) =>
    match get_html fuel net web w with
    | None => None
    | Some (Raise e, w) => Some (Raise e, w)
    | Some (Ok source, w) =>
      if truthy source then Some (Ok source, close web w)
      else Some (Ok FAILED_TO_LOAD, w)
    end
  end.

Definition world0 : world := {| next_id := O; trace := [] |}.

(** ** class [Browser]: the address bar and the navigation history

    Of the frame only what its handlers compute with is kept: the landing
    page [content] read from [index.html], the list [history], the cursor
    [historyPointer], and, in [shown], the pages handed to
    [webView.SetPage], the oldest first. The handlers are modelled as they
    run one after the other: the thread that [load_page] starts for
    [fetch_html] has finished when the next handler runs. An exception
    that leaves a handler ends that handler and leaves the frame as it is
    at that point. *)

(** [l[i]] and [l[i] = x] of a Python list: an index below zero counts
    from the end, an index out of range raises [IndexError]. *)
Definition list_index {A} (l : list A) (i : Z) : option nat :=
  let n := Z.of_nat (length l) in
  if ((0 <=? i) && (i <? n))%Z then Some (Z.to_nat i)
  else if ((- n <=? i) && (i <? 0))%Z then Some (Z.to_nat (n + i))
  else None.

Definition getitem {A} (l : list A) (i : Z) : outcome A :=
  match list_index l i with
  | Some n => index l n
  | None => Raise IndexError
  end.

Fixpoint set_nth {A} (n : nat) (x : A) (l : list A) : list A :=
  match l, n with
  | [], _ => []
  | _ :: l', O => x :: l'
  | y :: l', S n' => y :: set_nth n' x l'
  end.

Definition setitem {A} (l : list A) (i : Z) (x : A) : outcome (list A) :=
  match list_index l i with
  | Some n => Ok (set_nth n x l)
  | None => Raise IndexError
  end.

Record Browser : Type := {
  content : str;
  history : list str;
  historyPointer : Z;
  shown : list str
}.

(** The frame after [Browser.__init__], for the text of [index.html]. *)
Definition Browser_init (content : str) : Browser :=
  {| content := content; history := []; historyPointer := (-1)%Z;
     shown := [content] |}.

(** [wx.CallAfter(self.webView.SetPage, page, "")] *)
Definition SetPage (self : Browser) (page : str) : Browser :=
  {| content := content self; history := history self;
     historyPointer := historyPointer self; shown := shown self ++ [page] |}.

Definition set_historyPointer (self : Browser) (i : Z) : Browser :=
  {| content := content self; history := history self;
     historyPointer := i; shown := shown self |}.

Definition set_history (self : Browser) (h : list str) : Browser :=
  {| content := content self; history := h;
     historyPointer := historyPointer self; shown := shown self |}.

(** [try: self.history[self.historyPointer] = entry]
    [except IndexError: self.history.append(entry)] *)
Definition put_entry (self : Browser) (entry : str) : Browser :=
  match setitem (history self) (historyPointer self) entry with
  | Ok h => set_history self h
  | Raise _ => set_history self (history self ++ [entry])
  end.

(** What a handler of the frame gives: [None] when the redirects go
    deeper than the fuel, else how it ended, the frame and the world. *)
Definition gui : Type := option (outcome unit * (Browser * world)).

(** The statements that [fetch_html] and [getWeb] share: make the
    [Website] of [url], get its page and show it. *)
Definition show_url (fuel : nat) (net : network) (self : Browser) (url : str)
    (w : world) : gui :=
  match Website_init net url w with
  | (Raise e, w) => Some (Raise e, (self, w))
  | (Ok web, w) =>
    match get_html fuel net web w with
    | None => None
    | Some (Raise e, w) => Some (Raise e, (self, w))
    | Some (Ok source, w) =>
      if truthy source
      then Some (Ok tt, (SetPage self source, close web w))
      else Some (Ok tt, (SetPage self FAILED_TO_LOAD, w))
    end
  end.

(** [Browser.fetch_html] *)
Definition fetch_html (fuel : nat) (net : network) (self : Browser)
    (url : str) (w : world) : gui :=
  if truthy url then
    match show_url fuel net self url w with
    | Some (Ok _, (self, w)) =>
      let self := set_historyPointer self (historyPointer self + 1) in
      Some (Ok tt, (put_entry self url, w))
    | other => other
    end
  else Some (Ok tt, (self, w)).

(** The URL that [load_page] makes of the text of the address bar. *)
Definition entered_url (text : str) : str :=
  if negb (startswith (lit "http://") text || startswith (lit "https://") text)
  then lit "https://" ++ text
  else text.

(** [Browser.load_page], with the thread it starts run to its end. *)
Definition load_page (fuel : nat) (net : network) (self : Browser)
    (text : str) (w : world) : gui :=
  fetch_html fuel net self (entered_url text) w.

(** What [home] is called with: the event of the button, or one of the
    two texts that [refreshPage] and [backward] pass. *)
Inductive home_event : Type :=
  | ButtonEvent
  | Marker (text : str).

Definition REFRESH : str := lit "---Refreshing_Page---".
Definition BACKWARD : str := lit "---Going_Backward---".
Definition HOME : str := lit "Home".

(** [Browser.home] *)
Definition home (self : Browser) (event : home_event) : Browser :=
  let self := SetPage self (content self) in
  let marked :=
    match event with
    | ButtonEvent => false
    | Marker text => str_eqb text REFRESH || str_eqb text BACKWARD
    end in
  if negb marked then put_entry self HOME else self.

(** [Browser.getWeb] *)
Definition getWeb (fuel : nat) (net : network) (self : Browser) (w : world)
  : gui :=
  match getitem (history self) (historyPointer self) with
  | Raise e => Some (Raise e, (self, w))
  | Ok url => show_url fuel net self url w
  end.

(** [Browser.refreshPage] *)
Definition refreshPage (fuel : nat) (net : network) (self : Browser)
    (w : world) : gui :=
  if (historyPointer self =? -1)%Z
  then Some (Ok tt, (home self (Marker REFRESH), w))
  else
    match getitem (history self) (historyPointer self) with
    | Raise e => Some (Raise e, (self, w))
    | Ok entry =>
      if str_eqb entry HOME
      then Some (Ok tt, (home self (Marker REFRESH), w))
      else getWeb fuel net self w
    end.

(** [Browser.backward] *)
Definition backward (fuel : nat) (net : network) (self : Browser) (w : world)
  : gui :=
  if (historyPointer self >? 0)%Z then
    getWeb fuel net (set_historyPointer self (historyPointer self - 1)) w
  else if (historyPointer self =? 0)%Z then
    Some (Ok tt,
          (home (set_historyPointer self (historyPointer self - 1))
                (Marker BACKWARD), w))
  else Some (Ok tt, (self, w)).

(** [Browser.forward] *)
Definition forward (fuel : nat) (net : network) (self : Browser) (w : world)
  : gui :=
  if (historyPointer self <? Z.of_nat (length (history self)) - 1)%Z then
    getWeb fuel net (set_historyPointer self (historyPointer self + 1)) w
  else Some (Ok tt, (self, w)).

(** What the user does, and the handler that answers it. *)
Inductive action : Type :=
  | Go (text : str)
  | PressHome
  | PressRefresh
  | PressBackward
  | PressForward.

Definition handle (fuel : nat) (net : network) (a : action) (self : Browser)
    (w : world) : gui :=
  match a with
  | Go text => load_page fuel net self text w
  | PressHome => Some (Ok tt, (home self ButtonEvent, w))
  | PressRefresh => refreshPage fuel net self w
  | PressBackward => backward fuel net self w
  | PressForward => forward fuel net self w
  end.

(** The handlers of a sequence of actions, one after the other; the event
    loop goes on after a handler that raised. *)
Fixpoint handle_all (fuel : nat) (net : network) (actions : list action)
    (self : Browser) (w : world) : option (Browser * world) :=
  match actions with
  | [] => Some (self, w)
  | a :: actions' =>
    match handle fuel net a self w with
    | None => None
    | Some (_, (self, w)) => handle_all fuel net actions' self w
    end
  end.

(** The cursor is on an entry of the history, or just before the first. *)
Definition cursor_in_range (self : Browser) : Prop :=
  (-1 <= historyPointer self < Z.of_nat (length (history self)))%Z.

(** ** Example networks *)

(** A peer that accepts the request and whose [recv] calls give [chunks],
    then the end of the stream. *)
Definition serving (chunks : list bytes) : peer :=
  {| on_sendall := fun _ => None; on_recv := fun _ => map Data chunks |}.

(** The bytes of an ASCII text. *)
Definition ascii_bytes (s : str) : bytes := map byte_of s.

(** A network whose every socket connects to [p]. *)
Definition always (p : peer) : network := fun _ _ _ => Connected p.

(** A network that refuses every connection. *)
Definition unreachable : network := fun _ _ _ => ConnectFails OSError.

(** A network whose first connection is answered by a redirect to
    [https://example.org/] and whose second one is answered by a page. *)
Definition redirecting : network := fun id _ _ =>
  match id with
  | O => Connected (serving [ascii_bytes
           (lit "HTTP/1.1 301 Moved Permanently" ++ CRLF
            ++ lit "Location: https://example.org/" ++ CRLF ++ CRLF)])
  | _ => Connected (serving [ascii_bytes
           (lit "HTTP/1.1 200 OK" ++ CRLF ++ CRLF ++ lit "hello")])
  end.

(** The world after [http://example.com/] is fetched from [redirecting]. *)
Definition redirected_world : world :=
  Eval vm_compute in
    match fetch 2 redirecting (lit "http://example.com/") world0 with
    | Some (_, w) => w
    | None => world0
    end.

(** The [Website] of [http://example.com/] with its socket, number 0,
    connected to [p]. *)
Definition example_com (p : peer) : Website :=
  {| url := lit "http://example.com/";
     parsed := {| Url.scheme := lit "http"; Url.netloc := lit "example.com";
                  Url.path := lit "/"; Url.params := [];
                  Url.query := []; Url.fragment := [] |};
     scheme := lit "http"; netloc := lit "example.com";
     host := lit "example.com"; port := 80%Z; cmd := lit "/";
     browser_socket := Some {| sock_id := O; sock_peer := p |} |}.

(** What [__parse_url] makes of [http://example.com:443/]. *)
Definition http_on_443 : Website :=
  {| url := lit "http://example.com:443/";
     parsed := {| Url.scheme := lit "http";
                  Url.netloc := lit "example.com:443";
                  Url.path := lit "/"; Url.params := [];
                  Url.query := []; Url.fragment := [] |};
     scheme := lit "http"; netloc := lit "example.com:443";
     host := lit "example.com"; port := 443%Z; cmd := lit "/";
     browser_socket := None |}.

(** The answer of the first peer of [redirecting], and the [Website] of
    [http://example.com/] connected to that peer. *)
Definition redirect_answer : str :=
  lit "HTTP/1.1 301 Moved Permanently" ++ CRLF
  ++ lit "Location: https://example.org/" ++ CRLF ++ CRLF.

Definition redirecting_site : Website :=
  example_com (serving [ascii_bytes redirect_answer]).

(** A session at the browser: two pages, the home button, a third page,
    one step back; and the frame and the world after it, every socket
    connected to a peer that answers [hi]. *)
Definition browsing : list action :=
  [Go (lit "example.com"); Go (lit "example.org"); PressHome;
   Go (lit "example.net"); PressBackward].

Definition browsed : Browser * world :=
  Eval vm_compute in
    match handle_all 1 (always (serving [ascii_bytes (lit "hi")])) browsing
            (Browser_init (lit "<h1>home</h1>")) world0 with
    | Some result => result
    | None => (Browser_init [], world0)
    end.

(** ** Notions used to state the properties *)

(** The initial state of the reading loop (the three empty accumulators,
    [response] not bound yet). *)
Definition reader (results : list recv_result) : loop_exit :=
  recv_loop results [] [] [] None.

(** The candidate encodings of the reader, in the order they are tried. *)
Inductive encoding : Type := UTF8 | LATIN1 | ISO8859_1.

Definition decode_with (enc : encoding) (b : bytes) : str :=
  match enc with
  | UTF8 => decode_utf8 b
  | LATIN1 => decode_latin1 b
  | ISO8859_1 => decode_iso8859_1 b
  end.

(** The candidate that the tests of the loop accept at the last chunk:
    UTF-8 when the texts decoded from the chunks, one chunk at a time,
    hold no replacement character, else Latin-1. This is the choice of
    the code; the choice of the specification, made on the decoding of
    the whole buffer, is [from_scratch_choice] below. *)
Definition selected (chunks : list bytes) : encoding :=
  if char_in REPLACEMENT (concat (map decode_utf8 chunks)) then LATIN1
  else UTF8.

(** The reading policy in the words of the specification, to compare the
    loop with: for each accumulated byte buffer so far, the three
    candidates are tried in order on the whole buffer, and the current text
    is the first one that holds no replacement character; when none
    qualifies the current text is kept. *)
Definition from_scratch_choice (buffer : bytes) : option str :=
  if negb (char_in REPLACEMENT (decode_utf8 buffer))
  then Some (decode_utf8 buffer)
  else if negb (char_in REPLACEMENT (decode_latin1 buffer))
  then Some (decode_latin1 buffer)
  else if negb (char_in REPLACEMENT (decode_iso8859_1 buffer))
  then Some (decode_iso8859_1 buffer)
  else None.

Fixpoint reader_from_scratch (chunks : list bytes) (buffer : bytes)
    (current : option str) : option str :=
  match chunks with
  | [] => current
  | chunk :: chunks' =>
    let buffer := buffer ++ chunk in
    reader_from_scratch chunks' buffer
      (match from_scratch_choice buffer with
       | Some text => Some text
       | None => current
       end)
  end.

(** The value of a decimal numeral. *)
Definition numeral_value (ds : str) : Z :=
  fold_left (fun a c => (10 * a + Z.of_N (c - 0x30))%Z) ds 0%Z.

(** The first line of a response. *)
Definition status_line (response : str) : str :=
  hd [] (split CRLF response).

(** The socket an event is about. *)
Definition event_id (e : event) : nat :=
  match e with
  | EConnect id _ _ _ => id
  | ESend id _ => id
  | EClose id => id
  end.

(** The rule of [__init__] for TLS, on a connect event: wrapped exactly
    when the port is 443, by a context that checks neither the
    certificate chain nor the host name. *)
Definition tls_by_port (e : event) : Prop :=
  match e with
  | EConnect _ tls (h, p) _ =>
    (tls <> None <-> p = 443%Z) /\
    forall ctx name, tls = Some (ctx, name) ->
      verify_mode ctx = CERT_NONE /\ check_hostname ctx = false /\ name = h
  | _ => True
  end.

(** Replays a trace against the stack of the connections that are open,
    the last one opened on top: an established connection is pushed,
    bytes are sent on the top connection only, and only the top connection
    is closed. [None] when the trace breaks that discipline. *)
Fixpoint replay (stack : list nat) (evs : list event) : option (list nat) :=
  match evs with
  | [] => Some stack
  | EConnect id _ _ true :: evs' => replay (id :: stack) evs'
  | EConnect _ _ _ false :: evs' => replay stack evs'
  | ESend id _ :: evs' =>
    match stack with
    | top :: _ => if Nat.eqb top id then replay stack evs' else None
    | [] => None
    end
  | EClose id :: evs' =>
    match stack with
    | top :: stack' => if Nat.eqb top id then replay stack' evs' else None
    | [] => None
    end
  end.

(** The position of the first event of a trace that satisfies [f]. *)
Fixpoint position (f : event -> bool) (evs : list event) : option nat :=
  match evs with
  | [] => None
  | e :: evs' =>
    if f e then Some O
    else match position f evs' with
         | Some n => Some (S n)
         | None => None
         end
  end.

Definition is_close (id : nat) (e : event) : bool :=
  match e with
  | EClose i => Nat.eqb i id
  | _ => false
  end.

Definition is_connect (id : nat) (e : event) : bool :=
  match e with
  | EConnect i _ _ _ => Nat.eqb i id
  | _ => false
  end.

(** Connection [first] is closed before connection [second] is opened, or
    by the very next event after that. *)
Definition closed_at_handoff (first second : nat) (evs : list event) : bool :=
  match position (is_close first) evs, position (is_connect second) evs with
  | Some c, Some o => Nat.leb c (S o)
  | _, _ => false
  end.

(** Some peer of the network answers some request with a stream that the
    reader turns into the text [page]. *)
Definition served (net : network) (page : str) : Prop :=
  exists id tls address p request,
    net id tls address = Connected p /\
    reader (on_recv p request) = Break (Some page).
(** What a run that came back added to the trace: a block of events on
    sockets made during the run, connected by the rule of [__init__], in
    which every connection opened is closed again, the last opened first. *)
Definition nested (w : world) (res : run str) : Prop :=
  match res with
  | None => True
  | Some (_, w') =>
    exists evs,
      trace w' = trace w ++ evs /\
      (next_id w <= next_id w')%nat /\
      Forall (fun e => (next_id w <= event_id e)%nat) evs /\
      Forall tls_by_port evs /\
      forall stack, replay stack evs = Some stack
  end.

(** What a call of [get_html] on [self] that came back did: it returned a
    page that is not empty, and on the socket of [self], when there is one
    and the request could be encoded, it sent the request once, before a
    nested block of events on sockets made afterwards. *)
Definition session (self : Website) (w : world) (res : run str) : Prop :=
  match res with
  | None => True
  | Some (r, w') =>
    (exists page, r = Ok page /\ page <> []) /\
    exists evs,
      trace w' = trace w ++ evs /\
      (next_id w <= next_id w')%nat /\
      Forall tls_by_port evs /\
      match browser_socket self with
      | None => evs = []
      | Some s =>
        (forall stack,
            replay (sock_id s :: stack) evs = Some (sock_id s :: stack)) /\
        match encode (request_of self) with
        | Raise _ => evs = []
        | Ok request =>
          exists rest,
            evs = ESend (sock_id s) request :: rest /\
            Forall (fun e => (next_id w <= event_id e)%nat) rest
        end
      end
  end.


(** The socket of [self], when it has one, is connected to a peer of the
    network. *)
Definition of_network (net : network) (self : Website) : Prop :=
  forall s,
    browser_socket self = Some s ->
    exists id tls address, net id tls address = Connected (sock_peer s).

(** The error pages that [get_html] can return without reading them from
    a peer. *)
Definition error_pages : list str :=
  [CONNECT_ERROR; EMPTY_RESPONSE; RECEIVE_ERROR; NO_LOCATION].

(** The text holds, somewhere, one of the two status lines that
    [handle_status] looks for. *)
Definition announces_redirect (response : str) : Prop :=
  (exists pre post, response = pre ++ MOVED_PERMANENTLY ++ post) \/
  (exists pre post, response = pre ++ FOUND ++ post).

(** A line that starts with [location:], in any case of the letters. *)
Definition is_location_line (line : str) : Prop :=
  exists name value,
    line = name ++ lit ":" ++ value /\ lower name = lit "location".

(** * Properties *)

(** ** Strings *)

Lemma char_in_app c (a b : str) :
  char_in c (a ++ b) = char_in c a || char_in c b.
Proof. apply existsb_app. Qed.

Lemma char_in_false_iff c (s : str) : char_in c s = false <-> ~ In c s.
Proof.
  unfold char_in. split.
  - intros H Hin. assert (existsb (N.eqb c) s = true) as E.
    { apply existsb_exists. exists c. split; [easy | apply N.eqb_refl]. }
    congruence.
  - intros H. destruct (existsb (N.eqb c) s) eqn:E; [| reflexivity].
    apply existsb_exists in E as (x & Hx & Hc). apply N.eqb_eq in Hc.
    subst x. contradiction.
Qed.

Lemma char_in_concat_false c (l : list str) :
  char_in c (concat l) = false -> Forall (fun s => char_in c s = false) l.
Proof.
  induction l as [| s l IH]; simpl; intros H; constructor.
  - rewrite char_in_app in H. now apply orb_false_elim in H.
  - apply IH. rewrite char_in_app in H. now apply orb_false_elim in H.
Qed.

(** ** Codecs *)

Lemma to_N_byte_of n : n < 256 -> Byte.to_N (byte_of n) = n.
Proof.
  intros H. unfold byte_of. destruct (Byte.of_N n) eqn:E.
  - now apply Byte.to_of_N.
  - apply Byte.of_N_None_iff in E. lia.
Qed.

(** Latin-1 has a character for every byte: its decoding holds no
    replacement character. *)
Lemma decode_latin1_clean (b : bytes) :
  char_in REPLACEMENT (decode_latin1 b) = false.
Proof.
  apply char_in_false_iff. unfold decode_latin1. intros H.
  apply in_map_iff in H as (x & Hx & _).
  pose proof (Byte.to_N_bounded x). unfold REPLACEMENT in Hx. lia.
Qed.

Lemma decode_latin1_app (a b : bytes) :
  decode_latin1 (a ++ b) = decode_latin1 a ++ decode_latin1 b.
Proof. apply map_app. Qed.

Lemma decode_latin1_concat (l : list bytes) :
  decode_latin1 (concat l) = concat (map decode_latin1 l).
Proof. unfold decode_latin1. apply concat_map. Qed.

Ltac bool_cases :=
  repeat match goal with
         | |- context [if ?c then _ else _] =>
           let E := fresh "E" in destruct c eqn:E
         end.

Ltac replaced :=
  match goal with
  | H : char_in REPLACEMENT (REPLACEMENT :: _) = false |- _ =>
    now (unfold char_in in H; simpl in H)
  end.

Ltac tail IH' H :=
  simpl app; f_equal; apply IH'; [simpl; lia |];
  unfold char_in in H |- *; simpl in H;
  apply orb_false_elim in H; apply H.

(** A text decoded without a replacement character was decoded from
    complete, well-formed sequences, so what follows the bytes does not
    change it. *)
Lemma decode_utf8_clean_app (a b : bytes) :
  char_in REPLACEMENT (decode_utf8 a) = false ->
  decode_utf8 (a ++ b) = decode_utf8 a ++ decode_utf8 b.
Proof.
  remember (length a) as n eqn:Hn. revert a Hn.
  induction n as [n IH] using lt_wf_ind. intros a Hn.
  assert (forall a', (length a' < length a)%nat ->
            char_in REPLACEMENT (decode_utf8 a') = false ->
            decode_utf8 (a' ++ b) = decode_utf8 a' ++ decode_utf8 b) as IH'.
  { intros a' Hlt. apply (IH (length a')); [lia | reflexivity]. }
  clear IH Hn n.
  destruct a as [| b1 r1]; [reflexivity |].
  cbn [decode_utf8 app]. cbv zeta.
  destruct (Byte.to_N b1 <? 0x80) eqn:E1; [intros H; tail IH' H |].
  destruct (Byte.to_N b1 <? 0xC2) eqn:E2; [intros H; replaced |].
  destruct (Byte.to_N b1 <? 0xE0) eqn:E3.
  { destruct r1 as [| b2 r2]; [intros H; replaced |].
    cbn [app]. destruct (is_cont (Byte.to_N b2)); intros H;
      [tail IH' H | replaced]. }
  destruct (Byte.to_N b1 <? 0xF0) eqn:E4.
  { destruct r1 as [| b2 r2]; [intros H; replaced |].
    cbn [app].
    destruct (negb (is_cont (Byte.to_N b2))
              || (if Byte.to_N b2 <? 0xA0 then Byte.to_N b1 =? 0xE0
                  else Byte.to_N b1 =? 0xED)); [intros H; replaced |].
    destruct r2 as [| b3 r3]; [intros H; replaced |].
    cbn [app]. destruct (is_cont (Byte.to_N b3)); intros H;
      [tail IH' H | replaced]. }
  destruct (Byte.to_N b1 <? 0xF5) eqn:E5; [| intros H; replaced].
  destruct r1 as [| b2 r2]; [intros H; replaced |].
  cbn [app].
  destruct (negb (is_cont (Byte.to_N b2))
            || (if Byte.to_N b2 <? 0x90 then Byte.to_N b1 =? 0xF0
                else Byte.to_N b1 =? 0xF4)); [intros H; replaced |].
  destruct r2 as [| b3 r3]; [intros H; replaced |].
  cbn [app]. destruct (negb (is_cont (Byte.to_N b3))); [intros H; replaced |].
  destruct r3 as [| b4 r4]; [intros H; replaced |].
  cbn [app]. destruct (is_cont (Byte.to_N b4)); intros H;
    [tail IH' H | replaced].
Qed.

Ltac arith :=
  unfold is_cont, is_scalar in *;
  repeat match goal with
         | H : _ && _ = true |- _ => apply andb_true_iff in H; destruct H
         | H : _ || _ = true |- _ => apply orb_true_iff in H; destruct H
         | H : _ || _ = false |- _ => apply orb_false_iff in H; destruct H
         | H : _ && _ = false |- _ => apply andb_false_iff in H; destruct H
         | H : (_ <? _) = true |- _ => apply N.ltb_lt in H
         | H : (_ <? _) = false |- _ => apply N.ltb_ge in H
         | H : (_ <=? _) = true |- _ => apply N.leb_le in H
         | H : (_ <=? _) = false |- _ => apply N.leb_gt in H
         | H : (_ =? _) = true |- _ => apply N.eqb_eq in H
         | H : (_ =? _) = false |- _ => apply N.eqb_neq in H
         end.

(** Settles the comparisons of the goal that linear arithmetic decides. *)
Ltac compare_all :=
  repeat match goal with
         | |- context [?a <? ?b] =>
           destruct (N.ltb_spec a b); [| exfalso; lia]
         | |- context [?a <? ?b] =>
           destruct (N.ltb_spec a b); [exfalso; lia |]
         | |- context [?a <=? ?b] =>
           destruct (N.leb_spec a b); [| exfalso; lia]
         | |- context [?a <=? ?b] =>
           destruct (N.leb_spec a b); [exfalso; lia |]
         | |- context [?a =? ?b] =>
           destruct (N.eqb_spec a b); [| exfalso; lia]
         | |- context [?a =? ?b] =>
           destruct (N.eqb_spec a b); [exfalso; lia |]
         | |- context [?a <? ?b] => destruct (N.ltb_spec a b)
         end.

(** A number by its last six bits and the rest. *)
Lemma six_bits (c : N) :
  exists q r, c / 64 = q /\ c mod 64 = r /\ c = 64 * q + r /\ r < 64.
Proof.
  exists (c / 64), (c mod 64). repeat split.
  - apply N.div_mod. lia.
  - apply N.mod_lt. lia.
Qed.

(** Decoding undoes the encoding of a scalar value. *)
Lemma decode_encode_cp (c : N) (rest : bytes) :
  is_scalar c = true ->
  decode_utf8 (encode_cp c ++ rest) = c :: decode_utf8 rest.
Proof.
  intros Hc. unfold encode_cp.
  change 4096 with (64 * 64). change 262144 with (64 * 64 * 64).
  rewrite <- !N.Div0.div_div.
  destruct (six_bits c) as (q1 & r1 & -> & -> & Hq1 & Hr1).
  destruct (six_bits q1) as (q2 & r2 & -> & -> & Hq2 & Hr2).
  destruct (six_bits q2) as (q3 & r3 & -> & -> & Hq3 & Hr3).
  destruct (c <? 0x80) eqn:E1; [| destruct (c <? 0x800) eqn:E2;
    [| destruct (c <? 0x10000) eqn:E3]];
  cbn [decode_utf8 app]; cbv zeta; arith;
  try (exfalso; lia);
  rewrite !to_N_byte_of by lia;
  compare_all; cbn [andb negb orb]; f_equal; lia.
Qed.

Lemma encode_cp_nonempty (c : N) : encode_cp c <> [].
Proof. unfold encode_cp. bool_cases; discriminate. Qed.

Lemma decode_encode (s : str) : forall (b rest : bytes),
  encode s = Ok b -> decode_utf8 (b ++ rest) = s ++ decode_utf8 rest.
Proof.
  induction s as [| c s IH]; intros b rest H; simpl in H.
  - injection H as <-. reflexivity.
  - destruct (is_scalar c) eqn:Hc; [| discriminate].
    destruct (encode s) as [b' |] eqn:Hs; [| discriminate].
    injection H as <-. rewrite <- app_assoc, decode_encode_cp by assumption.
    simpl. f_equal. now apply IH.
Qed.

Lemma encode_nonempty (s : str) (b : bytes) :
  s <> [] -> encode s = Ok b -> b <> [].
Proof.
  destruct s as [| c s]; [congruence |]. intros _ H. simpl in H.
  destruct (is_scalar c); [| discriminate].
  destruct (encode s) as [b' |]; [| discriminate].
  injection H as <-. intros E. apply app_eq_nil in E as [E _].
  now apply encode_cp_nonempty in E.
Qed.

(** Chunks that each decode without a replacement character decode
    together as they decode apart. *)
Lemma decode_utf8_concat_clean (chunks : list bytes) :
  char_in REPLACEMENT (concat (map decode_utf8 chunks)) = false ->
  decode_utf8 (concat chunks) = concat (map decode_utf8 chunks).
Proof.
  induction chunks as [| c chunks IH]; simpl; intros H; [reflexivity |].
  rewrite char_in_app in H. apply orb_false_elim in H as [Hc Hr].
  rewrite decode_utf8_clean_app by assumption. f_equal. now apply IH.
Qed.

Lemma decode_utf8_ascii (b : bytes) :
  Forall (fun x => Byte.to_N x < 0x80) b -> decode_utf8 b = map Byte.to_N b.
Proof.
  induction 1 as [| x b Hx _ IH]; [reflexivity |].
  cbn [decode_utf8 map]. cbv zeta.
  destruct (N.ltb_spec (Byte.to_N x) 0x80); [| lia]. now rewrite IH.
Qed.

(** A text decoded without a replacement character has at most one
    character per byte, and one character per byte only when every byte
    is ASCII. *)
Lemma decode_utf8_clean_length (a : bytes) :
  char_in REPLACEMENT (decode_utf8 a) = false ->
  (length (decode_utf8 a) <= length a)%nat /\
  (length (decode_utf8 a) = length a ->
   Forall (fun x => Byte.to_N x < 0x80) a).
Proof.
  remember (length a) as n eqn:Hn. revert a Hn.
  induction n as [n IH] using lt_wf_ind. intros a Hn.
  assert (forall a', (length a' < length a)%nat ->
            char_in REPLACEMENT (decode_utf8 a') = false ->
            (length (decode_utf8 a') <= length a')%nat /\
            (length (decode_utf8 a') = length a' ->
             Forall (fun x => Byte.to_N x < 0x80) a')) as IH'.
  { intros a' Hlt. apply (IH (length a')); [lia | reflexivity]. }
  rewrite Hn. clear IH Hn n.
  assert (forall c r, (S (length r) < length a)%nat ->
            char_in REPLACEMENT (c :: decode_utf8 r) = false ->
            (length (c :: decode_utf8 r) <= length a)%nat /\
            (length (c :: decode_utf8 r) = length a ->
             Forall (fun x => Byte.to_N x < 0x80) a)) as Hlong.
  { intros c r Hlt H.
    unfold char_in in H. cbn [existsb] in H. apply orb_false_elim in H.
    destruct (IH' r ltac:(lia) (proj2 H)) as [Hl _]. cbn [length].
    split; [lia |]. intros E. exfalso. lia. }
  destruct a as [| b1 r1]; [split; [reflexivity | constructor] |].
  cbn [decode_utf8]. cbv zeta.
  destruct (Byte.to_N b1 <? 0x80) eqn:E1.
  { intros H. unfold char_in in H. cbn [existsb] in H.
    apply orb_false_elim in H.
    destruct (IH' r1 ltac:(simpl; lia) (proj2 H)) as [Hl He].
    cbn [length]. split; [lia |]. intros E.
    constructor; [now apply N.ltb_lt | apply He; lia]. }
  destruct (Byte.to_N b1 <? 0xC2) eqn:E2; [intros H; replaced |].
  destruct (Byte.to_N b1 <? 0xE0) eqn:E3.
  { destruct r1 as [| b2 r2]; [intros H; replaced |].
    destruct (is_cont (Byte.to_N b2)); intros H; [| replaced].
    apply Hlong; [cbn [length]; lia | exact H]. }
  destruct (Byte.to_N b1 <? 0xF0) eqn:E4.
  { destruct r1 as [| b2 r2]; [intros H; replaced |].
    destruct (negb (is_cont (Byte.to_N b2))
              || (if Byte.to_N b2 <? 0xA0 then Byte.to_N b1 =? 0xE0
                  else Byte.to_N b1 =? 0xED)); [intros H; replaced |].
    destruct r2 as [| b3 r3]; [intros H; replaced |].
    destruct (is_cont (Byte.to_N b3)); intros H; [| replaced].
    apply Hlong; [cbn [length]; lia | exact H]. }
  destruct (Byte.to_N b1 <? 0xF5) eqn:E5; [| intros H; replaced].
  destruct r1 as [| b2 r2]; [intros H; replaced |].
  destruct (negb (is_cont (Byte.to_N b2))
            || (if Byte.to_N b2 <? 0x90 then Byte.to_N b1 =? 0xF0
                else Byte.to_N b1 =? 0xF4)); [intros H; replaced |].
  destruct r2 as [| b3 r3]; [intros H; replaced |].
  destruct (negb (is_cont (Byte.to_N b3))); [intros H; replaced |].
  destruct r3 as [| b4 r4]; [intros H; replaced |].
  destruct (is_cont (Byte.to_N b4)); intros H; [| replaced].
  apply Hlong; [cbn [length]; lia | exact H].
Qed.

(** ** The reading loop *)

(** With a clean Latin-1 accumulator the loop never leaves by its
    [return]: one of the first two tests succeeds at every chunk. *)
Lemma recv_loop_no_return (results : list recv_result) :
  forall u l i r page,
    char_in REPLACEMENT l = false ->
    recv_loop results u l i r <> Return page.
Proof.
  induction results as [| [data | e] results IH]; intros u l i r page Hl;
    cbn [recv_loop]; try discriminate.
  destruct data as [| b data]; [discriminate |]. cbv zeta.
  assert (char_in REPLACEMENT (l ++ decode_latin1 (b :: data)) = false) as Hl'.
  { rewrite char_in_app, Hl. apply decode_latin1_clean. }
  destruct (char_in REPLACEMENT (u ++ decode_utf8 (b :: data))); cbn [negb].
  - rewrite Hl'. cbn [negb]. now apply IH.
  - now apply IH.
Qed.

(** The loop over chunks of data that all hold bytes: the candidate kept
    at the end is the UTF-8 accumulator when it is clean and the Latin-1
    accumulator otherwise. *)
Lemma recv_loop_data (chunks : list bytes) :
  forall u l r,
    Forall (fun c => c <> []) chunks ->
    char_in REPLACEMENT l = false ->
    recv_loop (map Data chunks) u l l r =
    Break (match chunks with
           | [] => r
           | _ :: _ =>
             Some (if char_in REPLACEMENT (u ++ concat (map decode_utf8 chunks))
                   then l ++ decode_latin1 (concat chunks)
                   else u ++ concat (map decode_utf8 chunks))
           end).
Proof.
  induction chunks as [| c chunks IH]; intros u l r Hne Hl; [reflexivity |].
  inversion Hne as [| c' chunks' Hc Hrest]; subst.
  destruct c as [| b c]; [congruence |].
  assert (char_in REPLACEMENT (l ++ decode_latin1 (b :: c)) = false) as Hl'.
  { rewrite char_in_app, Hl. apply decode_latin1_clean. }
  cbn [map recv_loop]. cbv zeta. unfold decode_iso8859_1.
  cbn [concat map]. rewrite decode_latin1_app, !app_assoc.
  set (u' := u ++ decode_utf8 (b :: c)) in *.
  set (l' := l ++ decode_latin1 (b :: c)) in *.
  destruct (char_in REPLACEMENT u') eqn:Hu; cbn [negb].
  - rewrite Hl'. cbn [negb]. rewrite IH by assumption.
    destruct chunks as [| c2 chunks]; [simpl | ].
    + rewrite !app_nil_r. now rewrite Hu.
    + rewrite char_in_app, Hu. reflexivity.
  - rewrite IH by assumption.
    destruct chunks as [| c2 chunks]; [simpl | reflexivity].
    rewrite !app_nil_r. now rewrite Hu.
Qed.

(** From its initial state, over chunks that all hold bytes, the loop ends
    with the UTF-8 texts of the chunks put together when they are clean,
    and with the Latin-1 text of the whole buffer otherwise. *)
Lemma reader_data (chunks : list bytes) :
  chunks <> [] ->
  Forall (fun c => c <> []) chunks ->
  reader (map Data chunks) =
  Break (Some (if char_in REPLACEMENT (concat (map decode_utf8 chunks))
               then decode_latin1 (concat chunks)
               else concat (map decode_utf8 chunks))).
Proof.
  intros Hne Hall. unfold reader.
  rewrite (recv_loop_data chunks [] [] None Hall eq_refl).
  destruct chunks as [| c chunks]; [congruence | reflexivity].
Qed.

(** Whatever the segmentation, the text the loop ends with is a decoding
    of the whole buffer under one encoding, the candidate that the tests
    of the loop accept at the last chunk. *)
Lemma reader_decodes_whole_buffer (chunks : list bytes) :
  chunks <> [] ->
  Forall (fun c => c <> []) chunks ->
  reader (map Data chunks) =
  Break (Some (decode_with (selected chunks) (concat chunks))).
Proof.
  intros Hne Hall. rewrite (reader_data chunks Hne Hall). unfold selected.
  destruct (char_in REPLACEMENT (concat (map decode_utf8 chunks))) eqn:E;
    cbn [decode_with].
  - reflexivity.
  - now rewrite decode_utf8_concat_clean.
Qed.

(** The selected encoding does depend on how the stream is cut: the two
    bytes of one character, received in two chunks, are read as two
    Latin-1 characters. *)
Example reader_split_character :
  decode_utf8 [xc3; xa9] = [0xE9] /\
  reader [Data [xc3; xa9]] = Break (Some [0xE9]) /\
  reader [Data [xc3]; Data [xa9]] = Break (Some [0xC3; 0xA9]).
Proof. repeat split. Qed.

(** The policy of the specification ends with the first clean decoding of
    the whole buffer. *)
Lemma reader_from_scratch_data (chunks : list bytes) :
  forall buffer current,
    chunks <> [] ->
    reader_from_scratch chunks buffer current
    = from_scratch_choice (buffer ++ concat chunks).
Proof.
  induction chunks as [| c chunks IH]; intros buffer current Hne;
    [congruence |].
  cbn [reader_from_scratch concat]. cbv zeta.
  destruct chunks as [| c2 chunks].
  - cbn [reader_from_scratch concat]. rewrite app_nil_r.
    unfold from_scratch_choice. rewrite decode_latin1_clean.
    now destruct (char_in REPLACEMENT (decode_utf8 (buffer ++ c))).
  - rewrite IH by discriminate. now rewrite <- app_assoc.
Qed.

(** The loop of the source and the policy of the specification end with
    the same text when every chunk decodes cleanly on its own, and when
    the whole buffer does not decode cleanly as UTF-8. *)
Lemma reader_agrees_with_from_scratch (chunks : list bytes) :
  chunks <> [] ->
  Forall (fun c => c <> []) chunks ->
  char_in REPLACEMENT (concat (map decode_utf8 chunks)) = false
  \/ char_in REPLACEMENT (decode_utf8 (concat chunks)) = true ->
  reader (map Data chunks) = Break (reader_from_scratch chunks [] None).
Proof.
  intros Hne Hall H. rewrite (reader_data chunks Hne Hall).
  rewrite (reader_from_scratch_data chunks [] None Hne). cbn [app].
  unfold from_scratch_choice. rewrite decode_latin1_clean.
  destruct (char_in REPLACEMENT (concat (map decode_utf8 chunks))) eqn:E.
  - destruct H as [H | H]; [discriminate |]. now rewrite H.
  - rewrite (decode_utf8_concat_clean chunks E), E. reflexivity.
Qed.

(** C4 fails in the code. The claim compares the loop with decoding the
    whole accumulated buffer from scratch, the policy of the
    specification. When the buffer is clean UTF-8 as a whole and a chunk
    boundary cuts one of its characters (some chunk does not decode
    cleanly on its own), decoding from scratch selects UTF-8, and the
    loop, which decodes chunk by chunk, finds replacement characters in
    its UTF-8 text and ends with the Latin-1 text of the buffer, a
    different text. *)
Theorem reader_misreads_cut_character (chunks : list bytes) :
  Forall (fun c => c <> []) chunks ->
  char_in REPLACEMENT (decode_utf8 (concat chunks)) = false ->
  char_in REPLACEMENT (concat (map decode_utf8 chunks)) = true ->
  reader_from_scratch chunks [] None = Some (decode_utf8 (concat chunks)) /\
  reader (map Data chunks) = Break (Some (decode_latin1 (concat chunks))) /\
  decode_latin1 (concat chunks) <> decode_utf8 (concat chunks).
Proof.
  intros Hall Hwhole Hcut.
  assert (chunks <> []) as Hne.
  { intros ->. discriminate. }
  split; [| split].
  - rewrite (reader_from_scratch_data chunks [] None Hne). cbn [app].
    unfold from_scratch_choice. now rewrite Hwhole.
  - rewrite (reader_data chunks Hne Hall). now rewrite Hcut.
  - intros E.
    destruct (decode_utf8_clean_length (concat chunks) Hwhole) as [_ Hascii].
    assert (Forall (fun x => Byte.to_N x < 0x80) (concat chunks)) as Ha.
    { apply Hascii. rewrite <- E. unfold decode_latin1. apply length_map. }
    assert (concat (map decode_utf8 chunks) = decode_utf8 (concat chunks))
      as Hsame.
    { rewrite (decode_utf8_ascii _ Ha). clear -Ha.
      induction chunks as [| c chunks IH]; [reflexivity |].
      cbn [concat map] in *. apply Forall_app in Ha as [Hc Hrest].
      now rewrite map_app, (decode_utf8_ascii c Hc), IH. }
    rewrite Hsame, Hwhole in Hcut. discriminate.
Qed.

Lemma reader_misreads_cut_character_witness :
  reader_from_scratch [[xc3]; [xa9]] [] None
  = Some (decode_utf8 (concat [[xc3]; [xa9]])) /\
  reader (map Data [[xc3]; [xa9]])
  = Break (Some (decode_latin1 (concat [[xc3]; [xa9]]))) /\
  decode_latin1 (concat [[xc3]; [xa9]]) <> decode_utf8 (concat [[xc3]; [xa9]]).
Proof.
  apply (reader_misreads_cut_character [[xc3]; [xa9]]).
  - repeat constructor; discriminate.
  - reflexivity.
  - reflexivity.
Defined.

(** The two bytes of U+00E9, received one by one: decoding from scratch
    gives the character, the loop gives two Latin-1 characters. *)
Example reader_differs_from_scratch :
  reader [Data [xc3]; Data [xa9]] = Break (Some [0xC3; 0xA9]) /\
  reader_from_scratch [[xc3]; [xa9]] [] None = Some [0xE9].
Proof. split; reflexivity. Qed.

(** C3, as the code has it: when every received chunk is the UTF-8
    encoding of a text of its own (so that no character is cut by a chunk
    boundary) and the texts hold no replacement character U+FFFD, the
    reader selects UTF-8 and ends with the UTF-8 decoding of the whole
    stream, which is the texts put together. *)
Theorem reader_selects_utf8 (texts : list str) (chunks : list bytes) :
  texts <> [] ->
  Forall2 (fun t c => t <> [] /\ encode t = Ok c) texts chunks ->
  char_in REPLACEMENT (concat texts) = false ->
  selected chunks = UTF8 /\
  reader (map Data chunks) = Break (Some (decode_utf8 (concat chunks))) /\
  decode_utf8 (concat chunks) = concat texts.
Proof.
  intros Hne Hall Hclean.
  assert (map decode_utf8 chunks = texts) as Hdec.
  { clear Hne Hclean. induction Hall as [| t c texts chunks [_ Ht] _ IH];
      [reflexivity |].
    simpl. f_equal; [| exact IH].
    rewrite <- (app_nil_r c), (decode_encode t c [] Ht). apply app_nil_r. }
  assert (Forall (fun c => c <> []) chunks) as Hbytes.
  { clear Hne Hclean Hdec. induction Hall as [| t c texts chunks [Hn Ht] _ IH];
      constructor; [| exact IH].
    now apply (encode_nonempty t). }
  assert (chunks <> []) as Hne'.
  { intros E. rewrite E in Hall. inversion Hall as [E' |]. now symmetry in E'. }
  assert (selected chunks = UTF8) as Hsel.
  { unfold selected. now rewrite Hdec, Hclean. }
  assert (decode_utf8 (concat chunks) = concat texts) as Hwhole.
  { rewrite decode_utf8_concat_clean; rewrite Hdec;
      [reflexivity | assumption]. }
  split; [exact Hsel |]. split; [| exact Hwhole].
  rewrite (reader_data chunks Hne' Hbytes), Hdec, Hclean.
  now rewrite Hwhole.
Qed.

Lemma reader_selects_utf8_witness :
  selected [[x68; x69]; [xc3; xa9]] = UTF8 /\
  reader (map Data [[x68; x69]; [xc3; xa9]]) =
    Break (Some (decode_utf8 (concat [[x68; x69]; [xc3; xa9]]))) /\
  decode_utf8 (concat [[x68; x69]; [xc3; xa9]]) =
    concat [[0x68; 0x69]; [0xE9]].
Proof.
  apply (reader_selects_utf8 [[0x68; 0x69]; [0xE9]]).
  - discriminate.
  - repeat constructor; discriminate.
  - reflexivity.
Defined.

(** C3 fails as stated: the three bytes [EF BF BD] are valid UTF-8 (they
    encode the character U+FFFD), and the reader, finding that character
    in the UTF-8 text, falls through to Latin-1. *)
Lemma reader_rejects_utf8_replacement_character :
  encode [REPLACEMENT] = Ok [xef; xbf; xbd] /\
  decode_utf8 [xef; xbf; xbd] = [REPLACEMENT] /\
  reader [Data [xef; xbf; xbd]] = Break (Some (decode_latin1 [xef; xbf; xbd])) /\
  reader [Data [xef; xbf; xbd]] <> Break (Some (decode_utf8 [xef; xbf; xbd])).
Proof. repeat split. discriminate. Qed.

(** ** Traces *)

Lemma replay_app (a b : list event) : forall stack,
  replay stack (a ++ b) =
  match replay stack a with
  | Some stack' => replay stack' b
  | None => None
  end.
Proof.
  induction a as [| e a IH]; intros stack; [reflexivity |].
  destruct e as [id tls address [|] | id data | id]; simpl; auto;
    destruct stack as [| top stack]; auto;
    destruct (Nat.eqb top id); auto.
Qed.

(** [Website(url)] either raises before it makes a socket, or makes the
    next socket and tries to connect it, wrapped exactly for port 443. *)
Lemma Website_init_cases net url w r w1 :
  Website_init net url w = (r, w1) ->
  (w1 = w /\ exists e, r = Raise e) \/
  exists self tls est,
    tls_by_port (EConnect (next_id w) tls (host self, port self) est) /\
    trace w1 = trace w ++ [EConnect (next_id w) tls (host self, port self) est] /\
    next_id w1 = S (next_id w) /\
    ((est = true /\
      exists p, r = Ok (set_browser_socket self
                          (Some {| sock_id := next_id w; sock_peer := p |}))) \/
     (est = false /\
      (r = Ok (set_browser_socket self None) \/ exists e, r = Raise e))).
Proof.
  unfold Website_init. destruct (parse_url url) as [self | e].
  2: { intros [= <- <-]. left. eauto. }
  cbn [new_socket]. cbv zeta.
  set (tls := if (port self =? 443)%Z
              then Some (create_unverified_context, host self) else None).
  assert (forall est,
            tls_by_port (EConnect (next_id w) tls (host self, port self) est))
    as Htls.
  { intros est. subst tls. cbn [tls_by_port].
    destruct (Z.eqb_spec (port self) 443) as [E | E]; split.
    - split; congruence.
    - intros ctx name [= <- <-]. repeat split.
    - split; congruence.
    - intros ctx name [=]. }
  intros H. right. exists self, tls.
  destruct (net (next_id w) tls (host self, port self)) as [p | e].
  - injection H as <- <-. exists true.
    split; [apply Htls |]. repeat (split; [reflexivity |]).
    left. split; [reflexivity | eauto].
  - exists false.
    destruct (is_socket_error e); injection H as <- <-;
      (split; [apply Htls |]); repeat (split; [reflexivity |]);
      right; (split; [reflexivity |]); eauto.
Qed.

(** Following a redirect, when [get_html] keeps to its session, adds a
    nested block to the trace and returns a page that is not empty. *)
Lemma follow_nested rec net url w :
  (forall self w1, session self w1 (rec self w1)) ->
  nested w (follow rec net url w) /\
  forall page w', follow rec net url w = Some (Ok page, w') -> page <> [].
Proof.
  intros Hrec. unfold follow.
  destruct (Website_init net url w) as [r w1] eqn:E.
  apply Website_init_cases in E
    as [[-> [e ->]] | (self & tls & est & Htls & Htr & Hid & Hr)].
  { split; [| discriminate]. exists []. rewrite app_nil_r.
    repeat split; auto. }
  destruct Hr as [[-> [p ->]] | [-> [-> | [e ->]]]].
  - specialize (Hrec (set_browser_socket self
       (Some {| sock_id := next_id w; sock_peer := p |})) w1).
    destruct (rec _ w1) as [[r2 w2] |]; [| split; [exact I | discriminate]].
    destruct Hrec as [(page & -> & Hpage) (evs & Htr2 & Hid2 & Htls2 & Hs)].
    cbn [browser_socket set_browser_socket sock_id] in Hs.
    destruct Hs as [Hreplay Hsend]. split; [| now intros ? ? [= <- <-]].
    exists (EConnect (next_id w) tls (host self, port self) true
              :: evs ++ [EClose (next_id w)]).
    unfold close. cbn [browser_socket set_browser_socket sock_id emit trace next_id].
    rewrite Htr2, Htr, <- !app_assoc. repeat split.
    + lia.
    + constructor; [simpl; lia |]. apply Forall_app. split.
      * destruct (encode (request_of _)) as [request |].
        -- destruct Hsend as (rest & -> & Hrest). constructor; [simpl; lia |].
           eapply Forall_impl; [| exact Hrest]. simpl. intros; lia.
        -- subst evs. constructor.
      * repeat constructor.
    + constructor; [exact Htls |]. apply Forall_app. split; [exact Htls2 |].
      repeat constructor.
    + intros stack. cbn [replay]. rewrite replay_app, Hreplay. simpl.
      now rewrite Nat.eqb_refl.
  - specialize (Hrec (set_browser_socket self None) w1).
    destruct (rec _ w1) as [[r2 w2] |]; [| split; [exact I | discriminate]].
    destruct Hrec as [(page & -> & Hpage) (evs & Htr2 & Hid2 & Htls2 & Hs)].
    cbn [browser_socket set_browser_socket] in Hs. subst evs.
    split; [| now intros ? ? [= <- <-]].
    exists [EConnect (next_id w) tls (host self, port self) false].
    unfold close. cbn [browser_socket set_browser_socket].
    rewrite Htr2, Htr, app_nil_r.
    repeat split; auto; try lia; repeat constructor; auto.
  - split; [| discriminate].
    exists [EConnect (next_id w) tls (host self, port self) false].
    repeat split; auto; try lia; repeat constructor; auto.
Qed.

Lemma error_pages_nonempty :
  CONNECT_ERROR <> [] /\ UNKNOWN_ENCODING <> [] /\ EMPTY_RESPONSE <> [] /\
  RECEIVE_ERROR <> [] /\ NO_LOCATION <> [].
Proof. repeat split; discriminate. Qed.

Lemma nested_nothing (w : world) (r : outcome str) : nested w (Some (r, w)).
Proof.
  exists []. rewrite app_nil_r. repeat split; auto.
Qed.

(** [handle_status], when [get_html] keeps to its session, adds a nested
    block to the trace, and the page it returns for a response that is
    not empty is not empty. *)
Lemma handle_status_nested rec net response w :
  (forall self w1, session self w1 (rec self w1)) ->
  nested w (handle_status rec net response w) /\
  forall page w',
    handle_status rec net response w = Some (Ok page, w') ->
    response <> [] -> page <> [].
Proof.
  intros Hrec. unfold handle_status.
  destruct (str_in MOVED_PERMANENTLY response || str_in FOUND response).
  - destruct (get_location response) as [[[| c location] |] | e].
    + split; [apply nested_nothing |]. intros ? ? [= <- <-] _.
      apply error_pages_nonempty.
    + destruct (follow_nested rec net (c :: location) w Hrec) as [Hn Hp].
      split; [exact Hn |]. intros page w' H _. now apply (Hp page w').
    + split; [apply nested_nothing |]. intros ? ? [= <- <-] _.
      apply error_pages_nonempty.
    + split; [apply nested_nothing | discriminate].
  - split; [apply nested_nothing |]. now intros ? ? [= <- <-].
Qed.

(** Every call of [get_html] that comes back keeps to its session. *)
Lemma get_html_session (fuel : nat) : forall net self w,
  session self w (get_html fuel net self w).
Proof.
  induction fuel as [| fuel IH]; intros net self w; [exact I |].
  cbn [get_html].
  destruct (browser_socket self) as [s |] eqn:Hs.
  2: { cbn [session]. rewrite Hs. split.
       - exists CONNECT_ERROR. split; [reflexivity | apply error_pages_nonempty].
       - exists []. rewrite app_nil_r. repeat split; auto. }
  unfold get_html_try.
  destruct (encode (request_of self)) as [request | e] eqn:Henc.
  2: { cbn [session]. rewrite Hs, Henc. split.
       - exists RECEIVE_ERROR. split; [reflexivity | apply error_pages_nonempty].
       - exists []. rewrite app_nil_r. repeat split; auto. }
  cbv zeta. set (w1 := emit (ESend (sock_id s) request) w).
  assert (forall page evs w2,
             page <> [] ->
             trace w2 = trace w1 ++ evs -> (next_id w1 <= next_id w2)%nat ->
             Forall (fun e => (next_id w1 <= event_id e)%nat) evs ->
             Forall tls_by_port evs ->
             (forall stack, replay stack evs = Some stack) ->
             session self w (Some (Ok page, w2))) as Hstep.
  { intros page evs w2 Hpage Htr Hid Hfresh Htls Hreplay.
    cbn [session]. rewrite Hs, Henc. split; [eauto |].
    exists (ESend (sock_id s) request :: evs).
    subst w1. cbn [emit trace next_id] in *.
    rewrite Htr, <- app_assoc. repeat split; auto.
    - constructor; [exact I | exact Htls].
    - intros stack. cbn [replay]. rewrite Nat.eqb_refl. apply Hreplay.
    - eauto. }
  assert (forall page, page <> [] -> session self w (Some (Ok page, w1)))
    as Hbase.
  { intros page Hpage. apply (Hstep page []); auto using app_nil_r. }
  destruct (on_sendall (sock_peer s) request);
    [apply Hbase, error_pages_nonempty |].
  destruct (recv_loop _ [] [] [] None) as [[response |] | page | e] eqn:Hloop.
  - destruct response as [| c response]; cbn [truthy negb].
    { apply Hbase, error_pages_nonempty. }
    destruct (handle_status_nested (get_html fuel net) net (c :: response)
                w1 (IH net)) as [Hn Hp].
    destruct (handle_status _ net (c :: response) w1) as [[[page | e] w2] |];
      [| | exact I];
      destruct Hn as (evs & Htr & Hid & Hfresh & Htls & Hreplay);
      apply (Hstep _ evs); auto.
    + apply (Hp page w2 eq_refl). discriminate.
    + apply error_pages_nonempty.
  - apply Hbase, error_pages_nonempty.
  - now apply recv_loop_no_return in Hloop.
  - apply Hbase, error_pages_nonempty.
Qed.

(** The entry point follows its URL as [handle_status] follows a
    redirect. *)
Lemma fetch_follow fuel net url w :
  fetch fuel net url w = follow (get_html fuel net) net url w.
Proof.
  unfold fetch, follow.
  destruct (Website_init net url w) as [[web | e] w1]; [| reflexivity].
  pose proof (get_html_session fuel net web w1) as H.
  destruct (get_html fuel net web w1) as [[[source | e] w2] |];
    try reflexivity.
  destruct H as [(page & [= <-] & Hpage) _].
  destruct source; [congruence | reflexivity].
Qed.

Lemma fetch_nested fuel net url w : nested w (fetch fuel net url w).
Proof.
  rewrite fetch_follow. apply follow_nested. apply get_html_session.
Qed.

(** ** The fetcher *)

(** More fuel does not change the result of a call that came back. *)
Lemma get_html_more_fuel (fuel : nat) : forall net self w res,
  get_html fuel net self w = Some res ->
  get_html (S fuel) net self w = Some res.
Proof.
  induction fuel as [| fuel IH]; intros net self w res H; [discriminate |].
  remember (S fuel) as n eqn:Hn. cbn [get_html]. subst n.
  cbn [get_html] in H.
  destruct (browser_socket self) as [s |]; [| exact H].
  unfold get_html_try in *.
  destruct (encode (request_of self)) as [request | e]; [| exact H].
  cbv zeta in *.
  destruct (on_sendall (sock_peer s) request); [exact H |].
  destruct (recv_loop _ [] [] [] None) as [[response |] | page | e];
    try exact H.
  destruct (negb (truthy response)); [exact H |].
  unfold handle_status in *.
  destruct (str_in MOVED_PERMANENTLY response || str_in FOUND response);
    [| exact H].
  destruct (get_location response) as [[[| c location] |] | e]; try exact H.
  unfold follow in *.
  destruct (Website_init net (c :: location) _) as [[redirect | e] w1];
    [| exact H].
  destruct (get_html fuel net redirect w1) as [res' |] eqn:E; [| discriminate].
  now rewrite (IH _ _ _ _ E).
Qed.

(** The entry point raises only what the constructor raises. *)
Lemma fetch_raises_from_init fuel net url w e w' :
  fetch fuel net url w = Some (Raise e, w') ->
  Website_init net url w = (Raise e, w').
Proof.
  unfold fetch. destruct (Website_init net url w) as [[web | e'] w1].
  - pose proof (get_html_session fuel net web w1) as Hs.
    destruct (get_html fuel net web w1) as [[r w2] |]; [| discriminate].
    destruct Hs as [(page & -> & Hpage) _].
    destruct page; cbn [truthy]; discriminate.
  - now intros [= -> ->].
Qed.

(** A page that the entry point returns is not empty. *)
Lemma fetch_page_nonempty fuel net url w page w' :
  fetch fuel net url w = Some (Ok page, w') -> page <> [].
Proof.
  rewrite fetch_follow. apply follow_nested. apply get_html_session.
Qed.

(** C1 fails on the code: [__parse_url] runs in [__init__], outside every
    [try], and calls [int] on what follows the first [':'] of the
    authority. For [http://example.com:abc/] the constructor raises
    [ValueError] before a socket is made, and the exception leaves the
    fetch entry point, whatever the network. *)
Theorem fetch_raises_on_non_numeric_port :
  forall (fuel : nat) (net : network) (w : world),
    fetch fuel net (lit "http://example.com:abc/") w
    = Some (Raise ValueError, w).
Proof.
  intros fuel net w. unfold fetch, Website_init.
  replace (parse_url (lit "http://example.com:abc/"))
    with (@Raise Website ValueError) by (vm_compute; reflexivity).
  reflexivity.
Qed.

(** C2 fails on the code: when the connection is established, the request
    is sent, and the first [recv] gives no bytes, the loop is left with
    [response] never bound; the test [if not response] raises
    [UnboundLocalError], which the [except] clause turns into the "error
    receiving data" page, not the "empty response" page. *)
Theorem zero_byte_response_is_receive_error
    (fuel : nat) (net : network) (self : Website) (s : socket) (w : world)
    (request : bytes) :
  browser_socket self = Some s ->
  encode (request_of self) = Ok request ->
  on_sendall (sock_peer s) request = None ->
  hd (Data []) (on_recv (sock_peer s) request) = Data [] ->
  get_html (S fuel) net self w
  = Some (Ok RECEIVE_ERROR, emit (ESend (sock_id s) request) w)
  /\ RECEIVE_ERROR <> EMPTY_RESPONSE.
Proof.
  intros Hs Henc Hsend Hrecv. split; [| discriminate].
  cbn [get_html]. rewrite Hs. unfold get_html_try. rewrite Henc, Hsend.
  destruct (on_recv (sock_peer s) request) as [| first results];
    [reflexivity |].
  cbn [hd] in Hrecv. subst first. reflexivity.
Qed.

Lemma zero_byte_response_is_receive_error_witness :
  get_html 1 (always (serving [])) (example_com (serving [])) world0
  = Some (Ok RECEIVE_ERROR,
          emit (ESend O (ascii_bytes (request_of (example_com (serving [])))))
               world0)
  /\ RECEIVE_ERROR <> EMPTY_RESPONSE.
Proof.
  apply (zero_byte_response_is_receive_error O (always (serving []))
           (example_com (serving [])) {| sock_id := O; sock_peer := serving [] |}
           world0 (ascii_bytes (request_of (example_com (serving []))))).
  - reflexivity.
  - vm_compute. reflexivity.
  - reflexivity.
  - reflexivity.
Defined.

(** The same through the entry point: a server that closes the stream at
    once. *)
Example fetch_zero_byte_response :
  exists w, fetch 1 (always (serving [])) (lit "http://example.com/") world0
            = Some (Ok RECEIVE_ERROR, w).
Proof. eexists. vm_compute. reflexivity. Qed.

(** What a fetch that comes back adds to the trace after the events of
    its constructor keeps the rule of [__init__] for TLS. *)
Lemma fetch_extends_init fuel net url w r w' :
  fetch fuel net url w = Some (r, w') ->
  exists rest,
    trace w' = trace (snd (Website_init net url w)) ++ rest /\
    Forall tls_by_port rest.
Proof.
  unfold fetch. destruct (Website_init net url w) as [[web | e] w1];
    cbn [snd].
  2: { intros [= <- <-]. exists []. now rewrite app_nil_r. }
  pose proof (get_html_session fuel net web w1) as Hs.
  destruct (get_html fuel net web w1) as [[r2 w2] |]; [| discriminate].
  destruct Hs as [(page & -> & Hpage) (evs & Htr & _ & Htls & _)].
  destruct page as [| c page]; [congruence |]. cbn [truthy].
  intros [= <- <-]. unfold close.
  destruct (browser_socket web) as [s |].
  - exists (evs ++ [EClose (sock_id s)]). cbn [emit trace].
    rewrite Htr, app_assoc. split; [reflexivity |].
    apply Forall_app. split; [exact Htls | repeat constructor].
  - now exists evs.
Qed.

(** C7: for every URL that [__parse_url] resolves, the constructor makes
    one socket and tries to connect it to the resolved host and port,
    wrapped in TLS when the resolved port is 443 and not wrapped when it
    is another, whatever the scheme; the TLS context is the one that
    checks neither the certificate chain nor the host name, and the name
    it is given is the resolved host. The connection is established when
    the network accepts it so. A fetch of the URL starts with that
    event, and every connection it makes afterwards, for the redirects
    that it follows, keeps the same rule. *)
Theorem tls_keyed_on_port
    (net : network) (url : str) (self : Website) (w : world) :
  parse_url url = Ok self ->
  exists tls established,
    trace (snd (Website_init net url w))
    = trace w
      ++ [EConnect (next_id w) tls (host self, port self) established] /\
    (port self = 443%Z ->
     tls = Some ({| check_hostname := false; verify_mode := CERT_NONE |},
                 host self)) /\
    (port self <> 443%Z -> tls = None) /\
    (established = true <->
     exists p, net (next_id w) tls (host self, port self) = Connected p) /\
    forall fuel r w',
      fetch fuel net url w = Some (r, w') ->
      exists rest,
        trace w'
        = trace w
          ++ EConnect (next_id w) tls (host self, port self) established
             :: rest /\
        Forall tls_by_port rest.
Proof.
  intros Hp.
  set (tls := if (port self =? 443)%Z
              then Some (create_unverified_context, host self) else None).
  assert (exists established,
             trace (snd (Website_init net url w))
             = trace w
               ++ [EConnect (next_id w) tls (host self, port self)
                            established] /\
             (established = true <->
              exists p,
                net (next_id w) tls (host self, port self) = Connected p))
    as (established & Htr & Hest).
  { unfold Website_init. rewrite Hp. cbn [new_socket]. cbv zeta.
    fold tls.
    destruct (net (next_id w) tls (host self, port self)) as [p | e].
    - exists true. split; [reflexivity |]. split; eauto.
    - exists false. split.
      + now destruct (is_socket_error e).
      + split; [discriminate | intros [p [=]]]. }
  exists tls, established. split; [exact Htr |].
  split; [| split; [| split; [exact Hest |]]].
  - intros E. subst tls. now rewrite E.
  - intros E. subst tls. now destruct (Z.eqb_spec (port self) 443).
  - intros fuel r w' H.
    destruct (fetch_extends_init fuel net url w r w' H) as (rest & Hw & Htls).
    exists rest. split; [| exact Htls].
    now rewrite Hw, Htr, <- app_assoc.
Qed.

Lemma tls_keyed_on_port_witness :
  exists tls established,
    trace (snd (Website_init unreachable (lit "http://example.com:443/")
                             world0))
    = trace world0
      ++ [EConnect (next_id world0) tls
                   (host http_on_443, port http_on_443) established] /\
    (port http_on_443 = 443%Z ->
     tls = Some ({| check_hostname := false; verify_mode := CERT_NONE |},
                 host http_on_443)) /\
    (port http_on_443 <> 443%Z -> tls = None) /\
    (established = true <->
     exists p,
       unreachable (next_id world0) tls (host http_on_443, port http_on_443)
       = Connected p) /\
    forall fuel r w',
      fetch fuel unreachable (lit "http://example.com:443/") world0
      = Some (r, w') ->
      exists rest,
        trace w'
        = trace world0
          ++ EConnect (next_id world0) tls
                      (host http_on_443, port http_on_443) established
             :: rest /\
        Forall tls_by_port rest.
Proof.
  apply (tls_keyed_on_port unreachable (lit "http://example.com:443/")
           http_on_443 world0).
  vm_compute. reflexivity.
Defined.

(** An [http] URL with the explicit port 443 is wrapped, an [https] URL
    with another explicit port is not. *)
Example tls_for_http_on_443 :
  snd (Website_init unreachable (lit "http://example.com:443/") world0)
  = {| next_id := 1;
       trace := [EConnect O (Some (create_unverified_context,
                                   lit "example.com"))
                          (lit "example.com", 443%Z) false] |} /\
  snd (Website_init unreachable (lit "https://example.com:8443/") world0)
  = {| next_id := 1;
       trace := [EConnect O None (lit "example.com", 8443%Z) false] |}.
Proof. split; vm_compute; reflexivity. Qed.

Lemma get_html_set_cmd fuel net self c w :
  get_html fuel net (set_cmd self c) w = get_html fuel net self w.
Proof. destruct fuel; reflexivity. Qed.

(** C8: on an established connection [get_html] writes, once and before
    anything else, the bytes of ["GET {path} HTTP/1.1\r\nHost:
    {host}\r\nConnection: close\r\n\r\n"], where [{path}] is the path of
    the parsed URL, or ["/"] when that is empty; nothing else is written
    to that connection, and [cmd] has no part in it. *)
Theorem request_on_the_wire
    (fuel : nat) (net : network) (self : Website) (s : socket)
    (w w' : world) (r : outcome str) (request : bytes) :
  browser_socket self = Some s ->
  (sock_id s < next_id w)%nat ->
  encode (lit "GET "
          ++ match Url.path (parsed self) with
             | [] => lit "/"
             | _ :: _ => Url.path (parsed self)
             end
          ++ lit " HTTP/1.1" ++ CRLF
          ++ lit "Host: " ++ host self ++ CRLF
          ++ lit "Connection: close" ++ CRLF ++ CRLF) = Ok request ->
  get_html fuel net self w = Some (r, w') ->
  (exists rest,
      trace w' = trace w ++ ESend (sock_id s) request :: rest /\
      Forall (fun e => event_id e <> sock_id s) rest) /\
  forall c, get_html fuel net (set_cmd self c) w = get_html fuel net self w.
Proof.
  intros Hs Hid Henc H. split; [| intros c; apply get_html_set_cmd].
  pose proof (get_html_session fuel net self w) as Hsess.
  rewrite H in Hsess. destruct Hsess as [_ (evs & Htr & _ & _ & Hsock)].
  rewrite Hs in Hsock. destruct Hsock as [_ Hsend].
  assert (encode (request_of self) = Ok request) as Henc'.
  { rewrite <- Henc. unfold request_of, truthy.
    destruct (Url.path (parsed self)); reflexivity. }
  rewrite Henc' in Hsend. destruct Hsend as (rest & -> & Hrest).
  exists rest. split; [exact Htr |].
  eapply Forall_impl; [| exact Hrest]. simpl. intros e He. lia.
Qed.

Lemma request_on_the_wire_witness :
  (exists rest,
      trace {| next_id := 1;
               trace := [ESend O (ascii_bytes
                           (lit "GET / HTTP/1.1" ++ CRLF
                            ++ lit "Host: example.com" ++ CRLF
                            ++ lit "Connection: close" ++ CRLF ++ CRLF))] |}
      = trace {| next_id := 1; trace := [] |}
        ++ ESend (sock_id {| sock_id := O; sock_peer := serving [] |})
                 (ascii_bytes
                    (lit "GET / HTTP/1.1" ++ CRLF
                     ++ lit "Host: example.com" ++ CRLF
                     ++ lit "Connection: close" ++ CRLF ++ CRLF)) :: rest /\
      Forall (fun e => event_id e <> O) rest) /\
  forall c,
    get_html 1 unreachable (set_cmd (example_com (serving [])) c)
             {| next_id := 1; trace := [] |}
    = get_html 1 unreachable (example_com (serving []))
               {| next_id := 1; trace := [] |}.
Proof.
  apply (request_on_the_wire 1 unreachable (example_com (serving []))
           {| sock_id := O; sock_peer := serving [] |}
           {| next_id := 1; trace := [] |} _ (Ok RECEIVE_ERROR)).
  - reflexivity.
  - simpl. lia.
  - vm_compute. reflexivity.
  - vm_compute. reflexivity.
Defined.

(** A fetch whose constructor established a connection opens it by its
    first event and closes it by its last. *)
Lemma fetch_established fuel net url w r w' web w1 s :
  fetch fuel net url w = Some (r, w') ->
  Website_init net url w = (Ok web, w1) ->
  browser_socket web = Some s ->
  exists tls address body,
    trace w'
    = trace w
      ++ EConnect (sock_id s) tls address true :: body ++ [EClose (sock_id s)].
Proof.
  intros H Hinit Hs. pose proof Hinit as Hcases.
  apply Website_init_cases in Hcases
    as [[_ [e [=]]] | (self & tls & est & _ & Htr & Hid & Hr)].
  assert (est = true /\ sock_id s = next_id w) as [-> Hsid].
  { destruct Hr as [[-> [p [= ->]]] | [_ [[= ->] | [e [=]]]]].
    - cbn [browser_socket set_browser_socket] in Hs.
      injection Hs as <-. split; reflexivity.
    - discriminate. }
  unfold fetch in H. rewrite Hinit in H.
  pose proof (get_html_session fuel net web w1) as Hsession.
  destruct (get_html fuel net web w1) as [[r2 w2] |]; [| discriminate].
  destruct Hsession as [(page & -> & Hpage) (evs & Htr2 & _)].
  destruct page as [| c page]; [congruence |]. cbn [truthy] in H.
  injection H as _ <-. unfold close. rewrite Hs. cbn [emit trace].
  exists tls, (host self, port self), evs.
  now rewrite Htr2, Htr, Hsid, <- !app_assoc.
Qed.

(** C9, as the code has it. The connections of a fetch that comes back
    are closed in the reverse order of their opening, and none is left
    open. When the first answer is a redirect that is followed, the
    target is fetched as a whole while the redirecting connection is
    open: after the request sent on the redirecting connection come the
    events of the fetch of the target, all of them on sockets made
    later, from the opening of the connection of the target to its
    closing when it is established; the redirecting connection is closed
    by the last event, after them. *)
Theorem connections_closed_innermost_first
    (fuel : nat) (net : network) (url : str) (w w' : world)
    (r : outcome str) :
  fetch fuel net url w = Some (r, w') ->
  (exists evs,
      trace w' = trace w ++ evs /\
      forall stack, replay stack evs = Some stack) /\
  forall web w1 s request response location,
    Website_init net url w = (Ok web, w1) ->
    browser_socket web = Some s ->
    encode (request_of web) = Ok request ->
    on_sendall (sock_peer s) request = None ->
    reader (on_recv (sock_peer s) request) = Break (Some response) ->
    str_in MOVED_PERMANENTLY response || str_in FOUND response = true ->
    get_location response = Ok (Some location) ->
    location <> [] ->
    exists tls address fuel' target w2 inner,
      fuel = S fuel' /\
      fetch fuel' net location (emit (ESend (sock_id s) request) w1)
      = Some (target, w2) /\
      trace w2
      = trace w
        ++ EConnect (sock_id s) tls address true
           :: ESend (sock_id s) request :: inner /\
      trace w' = trace w2 ++ [EClose (sock_id s)] /\
      Forall (fun e => (sock_id s < event_id e)%nat) inner /\
      (forall stack, replay stack inner = Some stack) /\
      forall redirect w3 s',
        Website_init net location (emit (ESend (sock_id s) request) w1)
        = (Ok redirect, w3) ->
        browser_socket redirect = Some s' ->
        exists tls' address' body,
          inner
          = EConnect (sock_id s') tls' address' true
            :: body ++ [EClose (sock_id s')].
Proof.
  intros H. split.
  { pose proof (fetch_nested fuel net url w) as Hn.
    rewrite H in Hn. destruct Hn as (evs & Htr & _ & _ & _ & Hreplay).
    eauto. }
  intros web w1 s request response location Hinit Hs Henc Hsend Hread
    Hredirect Hloc Hne.
  pose proof Hinit as Hcases.
  apply Website_init_cases in Hcases
    as [[_ [e [=]]] | (self & tls & est & _ & Htr & Hid & Hr)].
  assert (est = true /\ sock_id s = next_id w) as [-> Hsid].
  { destruct Hr as [[-> [p [= ->]]] | [_ [[= ->] | [e [=]]]]].
    - cbn [browser_socket set_browser_socket] in Hs.
      injection Hs as <-. split; reflexivity.
    - discriminate. }
  unfold fetch in H. rewrite Hinit in H.
  destruct fuel as [| fuel']; [discriminate |].
  cbn [get_html] in H. rewrite Hs in H. unfold get_html_try in H.
  rewrite Henc in H. cbv zeta in H. rewrite Hsend in H.
  unfold reader in Hread. rewrite Hread in H.
  assert (response <> []) as Hresponse.
  { intros ->. cbn in Hredirect. discriminate. }
  destruct response as [| c response]; [congruence |].
  cbn [truthy negb] in H. unfold handle_status in H.
  rewrite Hredirect, Hloc in H.
  destruct location as [| l location]; [congruence |].
  rewrite <- fetch_follow in H.
  set (w1' := emit (ESend (sock_id s) request) w1) in *.
  pose proof (fetch_nested fuel' net (l :: location) w1') as Hn.
  assert (forall page w2,
             fetch fuel' net (l :: location) w1' = Some (page, w2) ->
             w' = close web w2) as Hclose.
  { intros target w2 E. rewrite E in H.
    destruct target as [page | e]; cbv beta iota in H.
    - apply fetch_page_nonempty in E.
      destruct page; [congruence |]. cbn [truthy] in H.
      now injection H.
    - cbn [truthy] in H. now injection H. }
  destruct (fetch fuel' net (l :: location) w1') as [[target w2] |] eqn:E;
    [| discriminate].
  destruct Hn as (inner & Htr2 & _ & Hfresh & _ & Hreplay).
  exists tls, (host self, port self), fuel', target, w2, inner.
  split; [reflexivity |]. split; [exact E |].
  rewrite (Hclose target w2 eq_refl). unfold close. rewrite Hs.
  assert (trace w2
          = trace w
            ++ EConnect (sock_id s) tls (host self, port self) true
               :: ESend (sock_id s) request :: inner) as Hw2.
  { subst w1'. cbn [emit trace] in Htr2.
    now rewrite Htr2, Htr, Hsid, <- !app_assoc. }
  split; [exact Hw2 |]. split; [reflexivity |].
  split; [| split; [exact Hreplay |]].
  - eapply Forall_impl; [| exact Hfresh]. cbv beta. subst w1'.
    cbn [emit next_id]. intros e He. lia.
  - intros redirect w3 s' Hinit' Hs'.
    destruct (fetch_established _ _ _ _ _ _ _ _ _ E Hinit' Hs')
      as (tls' & address' & body & Hshape).
    exists tls', address', body. rewrite Htr2 in Hshape.
    now apply app_inv_head in Hshape.
Qed.

Lemma connections_closed_innermost_first_witness :
  exists tls address fuel' target w2 inner,
    2%nat = S fuel' /\
    fetch fuel' redirecting (lit "https://example.org/")
      (emit (ESend O (ascii_bytes (request_of redirecting_site)))
            {| next_id := 1;
               trace := [EConnect O None (lit "example.com", 80%Z) true] |})
    = Some (target, w2) /\
    trace w2
    = trace world0
      ++ EConnect O tls address true
         :: ESend O (ascii_bytes (request_of redirecting_site)) :: inner /\
    trace redirected_world = trace w2 ++ [EClose O] /\
    Forall (fun e => (O < event_id e)%nat) inner /\
    (forall stack, replay stack inner = Some stack) /\
    forall redirect w3 s',
      Website_init redirecting (lit "https://example.org/")
        (emit (ESend O (ascii_bytes (request_of redirecting_site)))
              {| next_id := 1;
                 trace := [EConnect O None (lit "example.com", 80%Z) true] |})
      = (Ok redirect, w3) ->
      browser_socket redirect = Some s' ->
      exists tls' address' body,
        inner
        = EConnect (sock_id s') tls' address' true
          :: body ++ [EClose (sock_id s')].
Proof.
  apply (proj2 (connections_closed_innermost_first 2 redirecting
                  (lit "http://example.com/") world0 redirected_world
                  (Ok (lit "HTTP/1.1 200 OK" ++ CRLF ++ CRLF ++ lit "hello"))
                  ltac:(vm_compute; reflexivity))
           redirecting_site
           {| next_id := 1;
              trace := [EConnect O None (lit "example.com", 80%Z) true] |}
           {| sock_id := O;
              sock_peer := serving [ascii_bytes redirect_answer] |}
           (ascii_bytes (request_of redirecting_site))
           redirect_answer (lit "https://example.org/")).
  - vm_compute. reflexivity.
  - reflexivity.
  - vm_compute. reflexivity.
  - reflexivity.
  - vm_compute. reflexivity.
  - vm_compute. reflexivity.
  - vm_compute. reflexivity.
  - discriminate.
Defined.

(** C9 fails as stated: when the first answer redirects, the first
    connection (socket 0) is closed last, after the second connection
    (socket 1) has been opened, used and closed, not before or right after
    the second one is opened. *)
Lemma redirecting_connection_closed_last :
  match fetch 2 redirecting (lit "http://example.com/") world0 with
  | Some (Ok page, w) =>
    page = lit "HTTP/1.1 200 OK" ++ CRLF ++ CRLF ++ lit "hello" /\
    position (is_connect 1) (trace w) = Some 2%nat /\
    position (is_close 1) (trace w) = Some 4%nat /\
    position (is_close 0) (trace w) = Some 5%nat /\
    closed_at_handoff 0 1 (trace w) = false
  | _ => False
  end.
Proof. vm_compute. repeat split. Qed.

Lemma Website_init_of_network net url w web w1 :
  Website_init net url w = (Ok web, w1) -> of_network net web.
Proof.
  unfold Website_init. destruct (parse_url url) as [self | e]; [| discriminate].
  cbn [new_socket]. cbv zeta.
  destruct (net _ _ _) as [p | e] eqn:Hnet.
  - intros [= <- <-] s [= <-]. cbn [sock_peer]. eauto.
  - destruct (is_socket_error e); [| discriminate].
    intros [= <- <-] s [=].
Qed.

(** A page that [get_html] returns is one of four error pages or the text
    read from a peer of the network. *)
Lemma get_html_pages (fuel : nat) : forall net self w page w',
  of_network net self ->
  get_html fuel net self w = Some (Ok page, w') ->
  In page error_pages \/ served net page.
Proof.
  induction fuel as [| fuel IH]; intros net self w page w' Hnet H;
    [discriminate |].
  cbn [get_html] in H. unfold error_pages.
  destruct (browser_socket self) as [s |] eqn:Hs.
  2: { injection H as <- <-. left. simpl. auto. }
  unfold get_html_try in H.
  destruct (encode (request_of self)) as [request | e].
  2: { injection H as <- <-. left. simpl. auto. }
  cbv zeta in H.
  destruct (on_sendall (sock_peer s) request).
  { injection H as <- <-. left. simpl. auto. }
  destruct (recv_loop _ [] [] [] None) as [[response |] | page' | e] eqn:Hloop.
  - destruct response as [| c response]; cbn [truthy negb] in H.
    { injection H as <- <-. left. simpl. auto. }
    unfold handle_status in H.
    destruct (str_in MOVED_PERMANENTLY (c :: response)
              || str_in FOUND (c :: response)).
    + destruct (get_location (c :: response)) as [[[| c' location] |] | e].
      * injection H as <- <-. left. simpl. auto.
      * unfold follow in H.
        destruct (Website_init net (c' :: location) _)
          as [[redirect | e] w1] eqn:Hinit.
        2: { injection H as <- <-. left. simpl. auto. }
        apply Website_init_of_network in Hinit.
        destruct (get_html fuel net redirect w1)
          as [[[source | e] w2] |] eqn:Hrec.
        -- injection H as <- <-. eapply IH; eassumption.
        -- injection H as <- <-. left. simpl. auto.
        -- discriminate.
      * injection H as <- <-. left. simpl. auto.
      * injection H as <- <-. left. simpl. auto.
    + injection H as <- <-. right.
      destruct (Hnet s Hs) as (id & tls & address & Hp).
      exists id, tls, address, (sock_peer s), request. split; assumption.
  - injection H as <- <-. left. simpl. auto.
  - now apply recv_loop_no_return in Hloop.
  - injection H as <- <-. left. simpl. auto.
Qed.

Lemma fetch_pages fuel net url w page w' :
  fetch fuel net url w = Some (Ok page, w') ->
  In page error_pages \/ served net page.
Proof.
  rewrite fetch_follow. unfold follow.
  destruct (Website_init net url w) as [[web | e] w1] eqn:Hinit;
    [| discriminate].
  apply Website_init_of_network in Hinit.
  destruct (get_html fuel net web w1) as [[[source | e] w2] |] eqn:Hrec;
    try discriminate.
  intros [= <- <-]. eapply get_html_pages; eassumption.
Qed.

(** C10, as the code has it: Latin-1 decoding never gives the replacement
    character, so the Latin-1 accumulator passes its test at every chunk
    and the reading loop is never left by its [return] of the "Unknown
    Encoding" page, whatever the calls of [recv] give; a fetch returns
    that text only when a peer sent it as its response. *)
Theorem unknown_encoding_branch_unreachable :
  (forall b : bytes, char_in REPLACEMENT (decode_latin1 b) = false) /\
  (forall chunks : list bytes,
      char_in REPLACEMENT (concat (map decode_latin1 chunks)) = false) /\
  (forall (results : list recv_result) (page : str),
      reader results <> Return page) /\
  (forall fuel net url w w',
      fetch fuel net url w = Some (Ok UNKNOWN_ENCODING, w') ->
      served net UNKNOWN_ENCODING).
Proof.
  split; [exact decode_latin1_clean |]. split; [| split].
  - intros chunks. rewrite <- decode_latin1_concat. apply decode_latin1_clean.
  - intros results page. apply recv_loop_no_return. reflexivity.
  - intros fuel net url w w' H. apply fetch_pages in H as [H | H]; [| exact H].
    exfalso. unfold error_pages in H. simpl in H.
    repeat (destruct H as [H | H]; [discriminate H |]). exact H.
Qed.

Lemma unknown_encoding_branch_unreachable_witness :
  served (always (serving [ascii_bytes UNKNOWN_ENCODING])) UNKNOWN_ENCODING.
Proof.
  apply (proj2 (proj2 (proj2 unknown_encoding_branch_unreachable)) 1%nat
           (always (serving [ascii_bytes UNKNOWN_ENCODING]))
           (lit "http://example.com/") world0
           (emit (EClose O)
              (emit (ESend O (ascii_bytes
                       (request_of (example_com (serving [])))))
                 (emit (EConnect O None (lit "example.com", 80%Z) true)
                    {| next_id := 1; trace := [] |})))).
  vm_compute. reflexivity.
Defined.

(** C10 fails as stated: the text of the "Unknown Encoding" page is what
    a fetch returns when a peer sends just that text. *)
Lemma fetch_returns_unknown_encoding_text :
  exists w,
    fetch 1 (always (serving [ascii_bytes UNKNOWN_ENCODING]))
          (lit "http://example.com/") world0
    = Some (Ok UNKNOWN_ENCODING, w).
Proof. eexists. vm_compute. reflexivity. Qed.

(** ** Splitting at a character, and [int] *)

Lemma split_go_none (c : N) (s : str) : forall cur,
  char_in c s = false -> split_go [c] s O cur = [rev cur ++ s].
Proof.
  induction s as [| x s IH]; intros cur H; cbn [split_go].
  - now rewrite app_nil_r.
  - unfold char_in in H. cbn [existsb] in H.
    apply orb_false_elim in H as [Hx Hs].
    cbn [startswith]. rewrite Hx. cbn [andb].
    rewrite (IH (x :: cur) Hs). cbn [rev]. now rewrite <- app_assoc.
Qed.

Lemma split_go_first (c : N) (h rest : str) : forall cur,
  char_in c h = false ->
  split_go [c] (h ++ c :: rest) O cur
  = (rev cur ++ h) :: split_go [c] rest O [].
Proof.
  induction h as [| x h IH]; intros cur H; cbn [split_go app].
  - cbn [startswith]. rewrite N.eqb_refl. cbn [andb length pred].
    now rewrite app_nil_r.
  - unfold char_in in H. cbn [existsb] in H.
    apply orb_false_elim in H as [Hx Hh].
    cbn [startswith]. rewrite Hx. cbn [andb].
    rewrite (IH (x :: cur) Hh). cbn [rev]. now rewrite <- app_assoc.
Qed.

Lemma decimal_digit (c : N) :
  is_digit c = true -> decimal c = Some (c - 0x30).
Proof.
  unfold is_digit, decimal. cbn [decimal_zeros decimal_from]. intros H.
  apply andb_true_iff in H as [H1 H2]. rewrite H1. cbn [andb].
  apply N.leb_le in H2.
  now replace (c <? 0x30 + 10) with true by (symmetry; apply N.ltb_lt; lia).
Qed.

Lemma digit_not_space (c : N) : is_digit c = true -> int_isspace c = false.
Proof.
  unfold is_digit, int_isspace. intros H. arith. compare_all. reflexivity.
Qed.

Lemma dropwhile_digits (ds : str) :
  forallb is_digit ds = true -> dropwhile int_isspace ds = ds.
Proof.
  destruct ds as [| c ds]; [reflexivity |]. cbn [forallb dropwhile]. intros H.
  apply andb_true_iff in H as [Hc _]. now rewrite (digit_not_space c Hc).
Qed.

Lemma strip_digits (ds : str) :
  forallb is_digit ds = true ->
  rev (dropwhile int_isspace (rev (dropwhile int_isspace ds))) = ds.
Proof.
  intros H. rewrite (dropwhile_digits ds H).
  rewrite dropwhile_digits; [apply rev_involutive |].
  apply forallb_forall. intros x Hx. apply in_rev in Hx.
  now apply (proj1 (forallb_forall _ _) H).
Qed.

Lemma int_digits_numeral (ds : str) : forall acc seen digits,
  forallb is_digit ds = true ->
  ds <> [] \/ seen = true ->
  (digits + length ds <= MAX_STR_DIGITS)%nat ->
  int_digits ds acc seen digits
  = Ok (fold_left (fun a c => (10 * a + Z.of_N (c - 0x30))%Z) ds acc).
Proof.
  induction ds as [| c ds IH]; intros acc seen digits H Hne Hlen.
  - destruct Hne as [Hne | ->]; [congruence |]. cbn [int_digits andb].
    cbn [length] in Hlen. rewrite Nat.add_0_r in Hlen.
    now rewrite (proj2 (Nat.leb_le _ _) Hlen).
  - cbn [forallb] in H. apply andb_true_iff in H as [Hc Hds].
    cbn [int_digits fold_left]. rewrite (decimal_digit c Hc).
    apply IH; auto. cbn [length] in Hlen.
    now rewrite Nat.add_succ_r in Hlen.
Qed.

(** [int] reads a decimal numeral as its value. *)
Lemma int_numeral (ds : str) :
  ds <> [] -> forallb is_digit ds = true ->
  (length ds <= MAX_STR_DIGITS)%nat ->
  int ds = Ok (numeral_value ds).
Proof.
  intros Hne H Hlen. unfold int. rewrite (strip_digits ds H).
  destruct ds as [| c ds]; [congruence |].
  assert (is_digit c = true) as Hc.
  { cbn [forallb] in H. now apply andb_true_iff in H. }
  assert ((c =? 0x2D) = false /\ (c =? 0x2B) = false) as [-> ->].
  { unfold is_digit in Hc. arith. split; apply N.eqb_neq; lia. }
  now apply int_digits_numeral; [| left |].
Qed.

Lemma digits_no_colon (ds : str) :
  forallb is_digit ds = true -> char_in 0x3A ds = false.
Proof.
  intros H. apply char_in_false_iff. intros Hin.
  apply (proj1 (forallb_forall _ _) H) in Hin. discriminate.
Qed.

(** C6, as the code has it: when the authority holds no [':'], the host is
    the authority and the port is 443 for the scheme [https] and 80 for
    any other; when the authority is a host without [':'] followed by
    [':'] and a numeral of ASCII digits, no more of them than [int]
    accepts, the port is the value of the numeral, whatever the scheme. *)
Theorem port_resolution (url : str) (p : Url.ParseResult) :
  Url.urlparse url = Ok p ->
  (char_in 0x3A (Url.netloc p) = false ->
   exists self,
     parse_url url = Ok self /\ host self = Url.netloc p /\
     (Url.scheme p = lit "https" -> port self = 443%Z) /\
     (Url.scheme p <> lit "https" -> port self = 80%Z)) /\
  (forall h ds,
      Url.netloc p = h ++ lit ":" ++ ds ->
      char_in 0x3A h = false ->
      ds <> [] -> forallb is_digit ds = true ->
      (length ds <= MAX_STR_DIGITS)%nat ->
      exists self,
        parse_url url = Ok self /\ host self = h /\
        port self = numeral_value ds).
Proof.
  intros Hp. unfold parse_url. rewrite Hp. cbn [obind].
  change (lit ":") with [0x3A]. unfold split. split.
  - intros Hc. rewrite (split_go_none _ _ [] Hc), Hc. cbn [rev app].
    cbn [index nth_error obind]. eexists. split; [reflexivity |].
    cbn [host port]. split; [reflexivity |]. unfold str_eqb.
    destruct (list_eq_dec N.eq_dec (Url.scheme p) (lit "https"));
      split; intros; congruence.
  - intros h ds Hn Hh Hne Hds Hlen. rewrite Hn. cbn [app].
    rewrite (split_go_first _ _ _ [] Hh).
    rewrite (split_go_none _ _ [] (digits_no_colon ds Hds)).
    cbn [rev app index nth_error obind].
    rewrite char_in_app. cbn [char_in existsb N.eqb Pos.eqb orb].
    rewrite orb_true_r. cbn [obind]. rewrite (int_numeral ds Hne Hds Hlen).
    cbn [obind]. eexists. split; [reflexivity |]. split; reflexivity.
Qed.

Lemma port_resolution_witness :
  exists self,
    parse_url (lit "https://example.com:8080/x") = Ok self /\
    host self = lit "example.com" /\
    port self = numeral_value (lit "8080").
Proof.
  apply (proj2 (port_resolution (lit "https://example.com:8080/x")
                  {| Url.scheme := lit "https";
                     Url.netloc := lit "example.com:8080";
                     Url.path := lit "/x"; Url.params := [];
                     Url.query := []; Url.fragment := [] |}
                  eq_refl)).
  - reflexivity.
  - reflexivity.
  - discriminate.
  - reflexivity.
  - apply Nat.leb_le. vm_compute. reflexivity.
Defined.

(** C6 fails as stated: an authority can hold a [':'] before its port or
    outside any port (an IPv6 literal, a password). [int] is then applied
    to what lies between the first two colons, and [__parse_url] raises
    [ValueError] for a URL with the explicit port 8080, and for a URL
    without an explicit port. *)
Lemma port_of_authority_with_other_colons :
  (exists p,
      Url.urlparse (lit "http://[::1]:8080/") = Ok p /\
      Url.netloc p = lit "[::1]" ++ lit ":" ++ lit "8080") /\
  parse_url (lit "http://[::1]:8080/") = Raise ValueError /\
  (exists p,
      Url.urlparse (lit "http://user:pw@example.com/") = Ok p /\
      Url.netloc p = lit "user:pw@example.com") /\
  parse_url (lit "http://user:pw@example.com/") = Raise ValueError.
Proof.
  repeat split; try (eexists; split; vm_compute; reflexivity);
    vm_compute; reflexivity.
Qed.

(** ** Redirects *)

Lemma startswith_iff (p s : str) :
  startswith p s = true <-> exists post, s = p ++ post.
Proof.
  revert s. induction p as [| a p IH]; intros s; cbn [startswith].
  - split; [intros _; now exists s | reflexivity].
  - destruct s as [| b s].
    + split; [discriminate | intros [post H]; discriminate].
    + rewrite andb_true_iff, N.eqb_eq, IH. split.
      * intros [-> [post ->]]. now exists post.
      * intros [post [= -> ->]]. split; [reflexivity | now exists post].
Qed.

(** [p in s] holds exactly when [p] occurs in [s]. *)
Lemma str_in_iff (p s : str) :
  str_in p s = true <-> exists pre post, s = pre ++ p ++ post.
Proof.
  induction s as [| c s IH]; cbn [str_in]; rewrite orb_true_iff, startswith_iff.
  - split.
    + intros [[post H] | H]; [| discriminate]. now exists [], post.
    + intros (pre & post & H). left. destruct pre; [| discriminate].
      now exists post.
  - rewrite IH. split.
    + intros [[post H] | (pre & post & ->)]; [now exists [], post |].
      now exists (c :: pre), post.
    + intros ([| c' pre] & post & H); [left; now exists post |].
      injection H as -> ->. right. now exists pre, post.
Qed.

Lemma split_once_first (c : N) (name value : str) :
  char_in c name = false ->
  split_once [c] (name ++ c :: value) = Some (name, value).
Proof.
  induction name as [| x name IH]; intros H; cbn [split_once app startswith].
  - now rewrite N.eqb_refl.
  - unfold char_in in H. cbn [existsb] in H.
    apply orb_false_elim in H as [Hx Hn].
    rewrite Hx. cbn [andb]. now rewrite (IH Hn).
Qed.

Lemma lower_char_colon (x : N) : lower_char x = 0x3A -> x = 0x3A.
Proof.
  unfold lower_char.
  destruct ((0x41 <=? x) && (x <=? 0x5A)) eqn:E; [| easy].
  arith. lia.
Qed.

(** The letters of a name that reads [location] are no colons. *)
Lemma location_name_no_colon (name : str) :
  lower name = lit "location" -> char_in 0x3A name = false.
Proof.
  intros H. apply char_in_false_iff. intros Hin.
  assert (In (lower_char 0x3A) (lower name)) as Hl
    by (unfold lower; now apply in_map).
  rewrite H in Hl. vm_compute in Hl. intuition discriminate.
Qed.

(** The test of [get_location] on a line. *)
Lemma location_test_iff (line : str) :
  startswith (lit "location:") (lower line) = true <-> is_location_line line.
Proof.
  rewrite startswith_iff. unfold is_location_line. split.
  - intros [post H].
    exists (firstn 8 line), (skipn 9 line).
    assert (lower (firstn 8 line) = lit "location"
            /\ nth_error line 8 = Some 0x3A) as [Hname Hcolon].
    { do 9 (destruct line as [| ? line]; [discriminate |]).
      cbn [lower map] in H. change (lit "location:") with
        [0x6C; 0x6F; 0x63; 0x61; 0x74; 0x69; 0x6F; 0x6E; 0x3A] in H.
      cbn [app] in H. injection H as H1 H2 H3 H4 H5 H6 H7 H8 H9 _.
      cbn [firstn lower map nth_error].
      rewrite H1, H2, H3, H4, H5, H6, H7, H8.
      now rewrite (lower_char_colon _ H9). }
    split; [| exact Hname].
    rewrite <- (firstn_skipn 8 line) at 1. f_equal.
    clear - Hcolon. do 8 (destruct line as [| ? line]; [discriminate |]).
    destruct line as [| c line]; [discriminate |].
    now injection Hcolon as ->.
  - intros (name & value & -> & Hname).
    exists (lower value). unfold lower in *.
    rewrite !map_app, Hname. reflexivity.
Qed.

Lemma get_location_lines_none (lines : list str) :
  Forall (fun l => ~ is_location_line l) lines ->
  get_location_lines lines = Ok None.
Proof.
  induction 1 as [| line lines Hline _ IH]; cbn [get_location_lines];
    [reflexivity |].
  destruct (startswith (lit "location:") (lower line)) eqn:E; [| exact IH].
  now apply location_test_iff in E.
Qed.

(** [get_location] gives what follows the first colon of the first
    location line, stripped. *)
Lemma get_location_lines_first (before after : list str) (name value : str) :
  Forall (fun l => ~ is_location_line l) before ->
  lower name = lit "location" ->
  get_location_lines (before ++ (name ++ lit ":" ++ value) :: after)
  = Ok (Some (strip value)).
Proof.
  intros Hbefore Hname.
  induction Hbefore as [| line lines Hline _ IH]; cbn [get_location_lines app].
  - assert (is_location_line (name ++ lit ":" ++ value)) as Hl
      by (now exists name, value).
    apply location_test_iff in Hl. rewrite Hl.
    change (lit ":") with [0x3A]. cbn [app].
    now rewrite (split_once_first _ _ _ (location_name_no_colon name Hname)).
  - destruct (startswith (lit "location:") (lower line)) eqn:E; [| exact IH].
    now apply location_test_iff in E.
Qed.

Lemma announces_redirect_iff (response : str) :
  str_in MOVED_PERMANENTLY response || str_in FOUND response = true
  <-> announces_redirect response.
Proof.
  unfold announces_redirect. now rewrite orb_true_iff, !str_in_iff.
Qed.

(** C5, as the code has it: [handle_status] takes a response for a
    redirect exactly when the text holds, anywhere, ["HTTP/1.1 301 Moved
    Permanently"] or ["HTTP/1.1 302 Found"], letter for letter. A response
    that holds neither is returned unchanged. For one that does, the first
    line (between ["\r\n"]) that starts with [location:] in any case gives
    the location, the text after its first colon without the white space
    around it: when that is not empty the result is the result of the
    whole fetch of the location, and when it is empty, or no line starts
    with [location:], the result is the "no new location" page. *)
Theorem redirect_resolution
    (fuel : nat) (net : network) (response : str) (w : world) :
  (~ announces_redirect response ->
   handle_status (get_html fuel net) net response w = Some (Ok response, w))
  /\
  (announces_redirect response ->
   forall before name value after,
     split CRLF response = before ++ (name ++ lit ":" ++ value) :: after ->
     Forall (fun l => ~ is_location_line l) before ->
     lower name = lit "location" ->
     (strip value <> [] ->
      handle_status (get_html fuel net) net response w
      = fetch fuel net (strip value) w) /\
     (strip value = [] ->
      handle_status (get_html fuel net) net response w
      = Some (Ok NO_LOCATION, w)))
  /\
  (announces_redirect response ->
   Forall (fun l => ~ is_location_line l) (split CRLF response) ->
   handle_status (get_html fuel net) net response w
   = Some (Ok NO_LOCATION, w)).
Proof.
  unfold handle_status.
  destruct (str_in MOVED_PERMANENTLY response || str_in FOUND response)
    eqn:E.
  - apply announces_redirect_iff in E. split; [easy |]. split.
    + intros _ before name value after Hsplit Hbefore Hname.
      unfold get_location. rewrite Hsplit.
      rewrite (get_location_lines_first _ _ _ _ Hbefore Hname).
      destruct (strip value) as [| c location].
      * split; [congruence | reflexivity].
      * split; [| discriminate]. intros _. symmetry. apply fetch_follow.
    + intros _ Hnone. unfold get_location.
      now rewrite (get_location_lines_none _ Hnone).
  - assert (~ announces_redirect response) as Hno.
    { intros H. apply announces_redirect_iff in H. congruence. }
    split; [reflexivity |]. split; intros H; contradiction.
Qed.

Lemma redirect_resolution_witness :
  handle_status (get_html 1 redirecting) redirecting
    (lit "HTTP/1.1 301 Moved Permanently" ++ CRLF
     ++ lit "Location: https://example.org/" ++ CRLF ++ CRLF) world0
  = fetch 1 redirecting (strip (lit " https://example.org/")) world0.
Proof.
  apply (proj1 (proj2 (redirect_resolution 1 redirecting
           (lit "HTTP/1.1 301 Moved Permanently" ++ CRLF
            ++ lit "Location: https://example.org/" ++ CRLF ++ CRLF) world0))
         (or_introl (ex_intro _ []
            (ex_intro _ (CRLF ++ lit "Location: https://example.org/"
                         ++ CRLF ++ CRLF) eq_refl)))
         [lit "HTTP/1.1 301 Moved Permanently"] (lit "Location")
         (lit " https://example.org/") [[]; []]).
  - reflexivity.
  - constructor; [| constructor].
    intros H. apply location_test_iff in H. discriminate.
  - reflexivity.
  - discriminate.
Defined.

(** C5 fails as stated: a response whose status line is [HTTP/1.1 200 OK]
    and whose body quotes the status line of a redirect is taken for a
    redirect, and is not returned unchanged. *)
Lemma quoted_status_line_is_followed :
  status_line (lit "HTTP/1.1 200 OK" ++ CRLF ++ CRLF ++ lit "HTTP/1.1 302 Found")
  = lit "HTTP/1.1 200 OK" /\
  handle_status (get_html 1 unreachable) unreachable
    (lit "HTTP/1.1 200 OK" ++ CRLF ++ CRLF ++ lit "HTTP/1.1 302 Found") world0
  = Some (Ok NO_LOCATION, world0) /\
  NO_LOCATION
  <> lit "HTTP/1.1 200 OK" ++ CRLF ++ CRLF ++ lit "HTTP/1.1 302 Found".
Proof. repeat split. discriminate. Qed.

(** * Further properties of the fetcher *)

(** ** The reading loop *)

(** The loop over chunks that hold bytes, followed by anything. *)
Lemma recv_loop_prefix (chunks : list bytes) (rest : list recv_result) :
  forall u l r,
    Forall (fun c => c <> []) chunks ->
    char_in REPLACEMENT l = false ->
    recv_loop (map Data chunks ++ rest) u l l r =
    recv_loop rest (u ++ concat (map decode_utf8 chunks))
      (l ++ decode_latin1 (concat chunks))
      (l ++ decode_latin1 (concat chunks))
      (match chunks with
       | [] => r
       | _ :: _ =>
         Some (if char_in REPLACEMENT (u ++ concat (map decode_utf8 chunks))
               then l ++ decode_latin1 (concat chunks)
               else u ++ concat (map decode_utf8 chunks))
       end).
Proof.
  induction chunks as [| c chunks IH]; intros u l r Hne Hl.
  - cbn [map app concat]. unfold decode_latin1. cbn [map].
    now rewrite !app_nil_r.
  - inversion Hne as [| c' chunks' Hc Hrest]; subst.
    destruct c as [| b c]; [congruence |].
    assert (char_in REPLACEMENT (l ++ decode_latin1 (b :: c)) = false) as Hl'.
    { rewrite char_in_app, Hl. apply decode_latin1_clean. }
    cbn [map app recv_loop]. cbv zeta. unfold decode_iso8859_1.
    cbn [concat map]. rewrite decode_latin1_app, !app_assoc.
    set (u' := u ++ decode_utf8 (b :: c)) in *.
    set (l' := l ++ decode_latin1 (b :: c)) in *.
    destruct (char_in REPLACEMENT u') eqn:Hu; cbn [negb].
    + rewrite Hl'. cbn [negb]. rewrite IH by assumption.
      destruct chunks as [| c2 chunks]; [simpl |].
      * rewrite !app_nil_r. now rewrite Hu.
      * now rewrite char_in_app, Hu.
    + rewrite IH by assumption.
      destruct chunks as [| c2 chunks]; [simpl | reflexivity].
      rewrite !app_nil_r. now rewrite Hu.
Qed.

(** X1: the reading loop stops at the first [recv] that gives no bytes:
    what the peer would have sent after it is not read, and the text is
    the one the chunks before it give. *)
Theorem reader_stops_at_empty_read
    (chunks : list bytes) (rest : list recv_result) :
  Forall (fun c => c <> []) chunks ->
  reader (map Data chunks ++ Data [] :: rest) = reader (map Data chunks).
Proof.
  intros Hne. unfold reader.
  rewrite (recv_loop_prefix chunks (Data [] :: rest) [] [] None Hne eq_refl).
  symmetry. rewrite <- (app_nil_r (map Data chunks)).
  now rewrite (recv_loop_prefix chunks [] [] [] None Hne eq_refl).
Qed.

Lemma reader_stops_at_empty_read_witness :
  reader (map Data [[x68; x69]] ++ Data [] :: [Data [x21]])
  = reader (map Data [[x68; x69]]).
Proof.
  apply (reader_stops_at_empty_read [[x68; x69]] [Data [x21]]).
  repeat constructor; discriminate.
Defined.

(** X2: a response of ASCII bytes is read as the text of those bytes,
    however the stream is cut into chunks. *)
Theorem reader_ascii (chunks : list bytes) :
  chunks <> [] ->
  Forall (fun c => c <> []) chunks ->
  Forall (fun x => Byte.to_N x < 0x80) (concat chunks) ->
  reader (map Data chunks) = Break (Some (map Byte.to_N (concat chunks))).
Proof.
  intros Hne Hall Hascii. rewrite (reader_data chunks Hne Hall).
  assert (concat (map decode_utf8 chunks) = map Byte.to_N (concat chunks))
    as E.
  { rewrite concat_map. f_equal. apply map_ext_in. intros c Hc.
    apply decode_utf8_ascii. rewrite Forall_forall in *. intros x Hx.
    apply Hascii. apply in_concat. eauto. }
  rewrite E.
  assert (char_in REPLACEMENT (map Byte.to_N (concat chunks)) = false) as ->.
  { apply decode_latin1_clean. }
  reflexivity.
Qed.

Lemma reader_ascii_witness :
  reader (map Data [[x68]; [x69; x21]])
  = Break (Some (map Byte.to_N (concat [[x68]; [x69; x21]]))).
Proof.
  apply (reader_ascii [[x68]; [x69; x21]]).
  - discriminate.
  - repeat constructor; discriminate.
  - repeat constructor.
Defined.

(** X3: one chunk that does not decode cleanly as UTF-8 on its own makes
    the loop end with the Latin-1 text of the whole stream, the chunks
    before and after it included. *)
Theorem reader_latin1_after_unclean_chunk (chunks : list bytes) :
  Forall (fun c => c <> []) chunks ->
  Exists (fun c => char_in REPLACEMENT (decode_utf8 c) = true) chunks ->
  reader (map Data chunks) = Break (Some (decode_latin1 (concat chunks))).
Proof.
  intros Hall Hex.
  assert (chunks <> []) as Hne by (intros ->; inversion Hex).
  rewrite (reader_data chunks Hne Hall).
  assert (char_in REPLACEMENT (concat (map decode_utf8 chunks)) = true) as ->;
    [| reflexivity].
  clear Hall Hne. induction Hex as [c chunks Hc | c chunks _ IH];
    cbn [map concat]; rewrite char_in_app.
  - now rewrite Hc.
  - rewrite IH. apply orb_true_r.
Qed.

Lemma reader_latin1_after_unclean_chunk_witness :
  reader (map Data [[x68; x69]; [xe9]; [x21]])
  = Break (Some (decode_latin1 (concat [[x68; x69]; [xe9]; [x21]]))).
Proof.
  apply (reader_latin1_after_unclean_chunk [[x68; x69]; [xe9]; [x21]]).
  - repeat constructor; discriminate.
  - apply Exists_cons_tl. apply Exists_cons_hd. reflexivity.
Defined.

(** ** [get_html] *)

(** X4: [get_html] raises nothing, whatever the peer and the network do
    (a request that cannot be encoded or sent, a failing [recv], a
    redirect whose target cannot be constructed), and the page it returns
    is never empty. *)
Theorem get_html_returns_a_page
    (fuel : nat) (net : network) (self : Website) (w w' : world)
    (r : outcome str) :
  get_html fuel net self w = Some (r, w') ->
  exists page, r = Ok page /\ page <> [].
Proof.
  intros H. pose proof (get_html_session fuel net self w) as Hs.
  rewrite H in Hs. apply Hs.
Qed.

Lemma get_html_returns_a_page_witness :
  exists page, Ok RECEIVE_ERROR = Ok page /\ page <> [].
Proof.
  apply (get_html_returns_a_page 1 unreachable
           (example_com {| on_sendall := fun _ => None;
                           on_recv := fun _ => [RecvError OSError] |})
           world0
           (emit (ESend O (ascii_bytes (request_of (example_com (serving [])))))
                 world0)).
  vm_compute. reflexivity.
Defined.

(** X5: when [recv] raises, after any number of chunks, [get_html]
    returns the "error receiving data" page: what was received is
    dropped, and nothing is done after the request was sent. *)
Theorem recv_error_drops_response
    (fuel : nat) (net : network) (self : Website) (s : socket) (w : world)
    (request : bytes) (chunks : list bytes) (e : exn)
    (rest : list recv_result) :
  browser_socket self = Some s ->
  encode (request_of self) = Ok request ->
  on_sendall (sock_peer s) request = None ->
  on_recv (sock_peer s) request = map Data chunks ++ RecvError e :: rest ->
  Forall (fun c => c <> []) chunks ->
  get_html (S fuel) net self w
  = Some (Ok RECEIVE_ERROR, emit (ESend (sock_id s) request) w).
Proof.
  intros Hs Henc Hsend Hrecv Hne.
  cbn [get_html]. rewrite Hs. unfold get_html_try.
  rewrite Henc, Hsend, Hrecv.
  now rewrite (recv_loop_prefix chunks _ [] [] None Hne eq_refl).
Qed.

Lemma recv_error_drops_response_witness :
  get_html 1 unreachable
    (example_com {| on_sendall := fun _ => None;
                    on_recv := fun _ => map Data [[x68; x69]]
                                        ++ RecvError OSError :: [] |})
    world0
  = Some (Ok RECEIVE_ERROR,
          emit (ESend O (ascii_bytes (request_of (example_com (serving [])))))
               world0).
Proof.
  apply (recv_error_drops_response O unreachable
           (example_com {| on_sendall := fun _ => None;
                           on_recv := fun _ => map Data [[x68; x69]]
                                               ++ RecvError OSError :: [] |})
           {| sock_id := O;
              sock_peer := {| on_sendall := fun _ => None;
                              on_recv := fun _ => map Data [[x68; x69]]
                                                  ++ RecvError OSError :: [] |} |}
           world0 (ascii_bytes (request_of (example_com (serving []))))
           [[x68; x69]] OSError []).
  - reflexivity.
  - vm_compute. reflexivity.
  - reflexivity.
  - reflexivity.
  - repeat constructor; discriminate.
Defined.

(** X6: when the network refuses the connection with a socket error, the
    fetch raises nothing and returns the "could not establish connection"
    page; the failed connect is all that happens: nothing is sent, and
    there is nothing to close. *)
Theorem refused_connection_page
    (fuel : nat) (net : network) (url : str) (self : Website) (w : world) :
  parse_url url = Ok self ->
  (forall tls address, net (next_id w) tls address = ConnectFails OSError) ->
  exists tls,
    fetch (S fuel) net url w
    = Some (Ok CONNECT_ERROR,
            {| next_id := S (next_id w);
               trace := trace w
                        ++ [EConnect (next_id w) tls (host self, port self)
                                     false] |}).
Proof.
  intros Hp Hnet. unfold fetch, Website_init. rewrite Hp.
  cbn [new_socket]. cbv zeta. rewrite Hnet. cbn [is_socket_error].
  cbn [get_html set_browser_socket browser_socket].
  eexists. reflexivity.
Qed.

Lemma refused_connection_page_witness :
  exists tls,
    fetch 1 unreachable (lit "http://example.com/") world0
    = Some (Ok CONNECT_ERROR,
            {| next_id := S (next_id world0);
               trace := trace world0
                        ++ [EConnect (next_id world0) tls
                              (host (example_com (serving [])),
                               port (example_com (serving []))) false] |}).
Proof.
  apply (refused_connection_page O unreachable (lit "http://example.com/")
           (set_browser_socket (example_com (serving [])) None) world0).
  - vm_compute. reflexivity.
  - reflexivity.
Defined.

(** X7: an exception that the constructor raises for the target of a
    redirect does not leave [get_html]: the [except] clause around
    [handle_status] turns it into the "error receiving data" page (the
    same exception raised for the URL of the entry point is not caught). *)
Theorem redirect_target_error_is_caught
    (fuel : nat) (net : network) (self : Website) (s : socket) (w w' : world)
    (request : bytes) (response location : str) (e : exn) :
  browser_socket self = Some s ->
  encode (request_of self) = Ok request ->
  on_sendall (sock_peer s) request = None ->
  reader (on_recv (sock_peer s) request) = Break (Some response) ->
  announces_redirect response ->
  get_location response = Ok (Some location) ->
  location <> [] ->
  Website_init net location (emit (ESend (sock_id s) request) w)
  = (Raise e, w') ->
  get_html (S fuel) net self w = Some (Ok RECEIVE_ERROR, w').
Proof.
  intros Hs Henc Hsend Hread Hredirect Hloc Hne Hinit.
  cbn [get_html]. rewrite Hs. unfold get_html_try.
  rewrite Henc, Hsend. unfold reader in Hread. cbv zeta. rewrite Hread.
  assert (response <> []) as Hresp.
  { intros ->. destruct Hredirect as [(pre & post & H) | (pre & post & H)];
      symmetry in H; apply app_eq_nil in H as [_ H];
      apply app_eq_nil in H as [H _]; discriminate. }
  destruct response as [| c response]; [congruence |]. cbn [truthy negb].
  unfold handle_status.
  apply announces_redirect_iff in Hredirect. rewrite Hredirect, Hloc.
  destruct location as [| c' location]; [congruence |].
  unfold follow. now rewrite Hinit.
Qed.

Lemma redirect_target_error_is_caught_witness :
  get_html 1 unreachable
    (example_com (serving [ascii_bytes
       (lit "HTTP/1.1 302 Found" ++ CRLF
        ++ lit "Location: http://example.com:abc/" ++ CRLF ++ CRLF)]))
    world0
  = Some (Ok RECEIVE_ERROR,
          emit (ESend O (ascii_bytes (request_of (example_com (serving [])))))
               world0).
Proof.
  apply (redirect_target_error_is_caught O unreachable
           (example_com (serving [ascii_bytes
              (lit "HTTP/1.1 302 Found" ++ CRLF
               ++ lit "Location: http://example.com:abc/" ++ CRLF ++ CRLF)]))
           {| sock_id := O;
              sock_peer := serving [ascii_bytes
                (lit "HTTP/1.1 302 Found" ++ CRLF
                 ++ lit "Location: http://example.com:abc/" ++ CRLF ++ CRLF)] |}
           world0 _
           (ascii_bytes (request_of (example_com (serving []))))
           (lit "HTTP/1.1 302 Found" ++ CRLF
            ++ lit "Location: http://example.com:abc/" ++ CRLF ++ CRLF)
           (lit "http://example.com:abc/") ValueError).
  - reflexivity.
  - vm_compute. reflexivity.
  - reflexivity.
  - vm_compute. reflexivity.
  - right. exists [], (CRLF ++ lit "Location: http://example.com:abc/"
                       ++ CRLF ++ CRLF). reflexivity.
  - vm_compute. reflexivity.
  - discriminate.
  - vm_compute. reflexivity.
Defined.

(** ** [get_location] *)

(** X8: [get_location] never raises: the index [[1]] it takes after
    splitting at the first colon is always there, because a line that
    passes the test holds a colon. It gives [None] exactly when no line of
    the response starts with [location:]. *)
Theorem get_location_never_raises (response : str) :
  (exists result, get_location response = Ok result) /\
  (get_location response = Ok None <->
   Forall (fun l => ~ is_location_line l) (split CRLF response)).
Proof.
  unfold get_location.
  assert (forall lines,
             (exists v, get_location_lines lines = Ok (Some v)
                        /\ Exists is_location_line lines)
             \/ (get_location_lines lines = Ok None
                 /\ Forall (fun l => ~ is_location_line l) lines)) as H.
  { induction lines as [| line lines IH]; [right; split; [easy | constructor] |].
    cbn [get_location_lines].
    destruct (startswith (lit "location:") (lower line)) eqn:E.
    - apply location_test_iff in E. left.
      destruct E as (name & value & -> & Hname).
      change (lit ":") with [0x3A]. cbn [app].
      rewrite (split_once_first _ _ _ (location_name_no_colon name Hname)).
      cbn [index nth_error obind]. eexists. split; [reflexivity |].
      apply Exists_cons_hd. now exists name, value.
    - assert (~ is_location_line line) as Hno.
      { intros Hl. apply location_test_iff in Hl. congruence. }
      destruct IH as [(v & Hv & Hex) | [Hn Hall]].
      + left. exists v. split; [exact Hv | now apply Exists_cons_tl].
      + right. split; [exact Hn | now constructor]. }
  destruct (H (split CRLF response)) as [(v & Hv & Hex) | [Hn Hall]].
  - split; [eauto |]. rewrite Hv. split; [discriminate |].
    intros Hall. apply Exists_exists in Hex as (l & Hin & Hl).
    rewrite Forall_forall in Hall. now apply Hall in Hl.
  - split; [eauto |]. split; [intros _; exact Hall | intros _; exact Hn].
Qed.

(** ** [__parse_url] *)

(** A text holds no [c], or has a first [c]. *)
Lemma first_occurrence (c : N) (s : str) :
  char_in c s = false \/
  exists pre t, s = pre ++ c :: t /\ char_in c pre = false.
Proof.
  induction s as [| x s IH]; [now left |].
  unfold char_in in *. cbn [existsb].
  destruct (N.eqb_spec c x) as [<- | Hx].
  - right. now exists [], s.
  - destruct IH as [IH | (pre & t & -> & Hpre)]; [now left |].
    right. exists (x :: pre), t. split; [reflexivity |].
    cbn [existsb]. rewrite Hpre. now destruct (N.eqb_spec c x).
Qed.

Lemma split_go_nonempty (sep s : str) : forall k cur,
  split_go sep s k cur <> [].
Proof.
  induction s as [| x s IH]; intros k cur; cbn [split_go]; [discriminate |].
  destruct k; [| apply IH].
  destruct (startswith sep (x :: s)); [discriminate | apply IH].
Qed.

Lemma int_digits_raises (s : str) : forall acc seen digits e,
  int_digits s acc seen digits = Raise e -> e = ValueError.
Proof.
  induction s as [| c s IH]; intros acc seen digits e; cbn [int_digits].
  - destruct (seen && (digits <=? MAX_STR_DIGITS)%nat);
      [discriminate | now intros [= <-]].
  - destruct (decimal c); [apply IH |].
    destruct ((c =? 0x5F) && seen); [apply IH | now intros [= <-]].
Qed.

Lemma int_raises (s : str) (e : exn) : int s = Raise e -> e = ValueError.
Proof.
  unfold int.
  destruct (rev (dropwhile int_isspace (rev (dropwhile int_isspace s))))
    as [| c s']; [now intros [= <-] |].
  destruct (c =? 0x2D).
  { destruct (int_digits s' 0 false 0) eqn:E; [discriminate |].
    cbn [obind]. intros [= <-]. now apply int_digits_raises in E. }
  destruct (c =? 0x2B); apply int_digits_raises.
Qed.

Lemma urlparse_raises (url : str) (e : exn) :
  Url.urlparse url = Raise e -> e = ValueError.
Proof.
  unfold Url.urlparse. cbv zeta.
  destruct (Url.split_scheme _) as [scheme rest].
  destruct (if startswith (lit "//") rest
            then Url.split_netloc (skipn 2 rest) else ([], rest))
    as [netloc rest'].
  destruct (xorb (char_in 0x5B netloc) (char_in 0x5D netloc));
    [now intros [= <-] |].
  destruct (char_in 0x5B netloc && negb (Url.check_bracketed_netloc netloc));
    [now intros [= <-] |].
  destruct (Url.cut (lit "#") rest') as [u1 fragment].
  destruct (Url.cut (lit "?") u1) as [u2 query].
  destruct (negb (Url.checknetloc netloc)); [now intros [= <-] |].
  destruct (if existsb (str_eqb scheme) Url.uses_params && char_in 0x3B u2
            then Url.splitparams u2 else (u2, [])) as [u3 params].
  discriminate.
Qed.

(** X9: the host that [__parse_url] keeps is the text of the authority
    before its first colon, the whole authority when it has none; so the
    host never holds a colon (of an IPv6 literal only the ['['] is
    kept, of [user:password@host] only [user]). *)
Theorem host_is_authority_before_first_colon (url : str) (self : Website) :
  parse_url url = Ok self ->
  char_in 0x3A (host self) = false /\
  (netloc self = host self \/
   exists rest, netloc self = host self ++ lit ":" ++ rest).
Proof.
  unfold parse_url. destruct (Url.urlparse url) as [p | e]; [| discriminate].
  cbn [obind]. cbv zeta. change (lit ":") with [0x3A]. unfold split.
  destruct (first_occurrence 0x3A (Url.netloc p))
    as [Hnone | (pre & t & Hn & Hpre)].
  - rewrite (split_go_none _ _ [] Hnone), Hnone.
    cbn [rev app index nth_error obind]. intros H. injection H as <-.
    cbn [host netloc]. split; [exact Hnone | now left].
  - rewrite Hn, (split_go_first _ _ _ [] Hpre).
    cbn [rev app index nth_error obind].
    match goal with
    | |- obind ?x _ = _ -> _ => destruct x as [z | e]
    end; cbn [obind]; [| discriminate].
    intros H. injection H as <-. cbn [host netloc].
    split; [exact Hpre | right; now exists t].
Qed.

Lemma host_is_authority_before_first_colon_witness :
  char_in 0x3A (host (set_browser_socket (example_com (serving [])) None))
  = false /\
  (netloc (set_browser_socket (example_com (serving [])) None)
   = host (set_browser_socket (example_com (serving [])) None) \/
   exists rest,
     netloc (set_browser_socket (example_com (serving [])) None)
     = host (set_browser_socket (example_com (serving [])) None)
       ++ lit ":" ++ rest).
Proof.
  apply (host_is_authority_before_first_colon (lit "http://example.com/")).
  vm_compute. reflexivity.
Defined.

(** X10: [__parse_url] raises nothing but [ValueError]: its two list
    indexings never fail, since a split always has a first piece and has a
    second one whenever the authority holds a colon. *)
Theorem parse_url_raises_only_ValueError (url : str) (e : exn) :
  parse_url url = Raise e -> e = ValueError.
Proof.
  unfold parse_url. destruct (Url.urlparse url) as [p | e'] eqn:Hp.
  2: { cbn [obind]. intros [= <-]. now apply urlparse_raises in Hp. }
  cbn [obind]. cbv zeta. change (lit ":") with [0x3A]. unfold split.
  destruct (first_occurrence 0x3A (Url.netloc p))
    as [Hnone | (pre & t & Hn & Hpre)].
  - rewrite (split_go_none _ _ [] Hnone), Hnone.
    cbn [rev app index nth_error obind]. discriminate.
  - rewrite Hn, (split_go_first _ _ _ [] Hpre).
    cbn [rev app index nth_error obind].
    rewrite char_in_app. cbn [char_in existsb N.eqb Pos.eqb orb].
    rewrite orb_true_r.
    destruct (split_go [0x3A] t O []) as [| x rest] eqn:Hsplit;
      [now apply split_go_nonempty in Hsplit |].
    cbn [index nth_error obind]. destruct (int x) as [z | e'] eqn:Hint; cbn [obind];
      [discriminate |].
    intros [= <-]. now apply int_raises in Hint.
Qed.

Lemma parse_url_raises_only_ValueError_witness : ValueError = ValueError.
Proof.
  apply (parse_url_raises_only_ValueError (lit "http://example.com:/")).
  vm_compute. reflexivity.
Defined.

(** X11: for an authority [host:text] with one colon, the port is what
    [int] makes of [text], with no check of its range (a negative number
    or one above 65535 is kept, and signs, blanks and underscores are
    read as [int] reads them); when [int] refuses [text], and so when
    [text] is empty, [__parse_url] raises [ValueError]. *)
Theorem port_is_what_int_gives (url : str) (p : Url.ParseResult) (h t : str) :
  Url.urlparse url = Ok p ->
  Url.netloc p = h ++ lit ":" ++ t ->
  char_in 0x3A h = false ->
  char_in 0x3A t = false ->
  (forall z, int t = Ok z ->
     exists self, parse_url url = Ok self /\ host self = h /\ port self = z)
  /\ (forall e, int t = Raise e -> parse_url url = Raise ValueError)
  /\ (t = [] -> parse_url url = Raise ValueError).
Proof.
  intros Hp Hn Hh Ht.
  assert (parse_url url
          = obind (int t) (fun z =>
              Ok {| url := url; parsed := p; scheme := Url.scheme p;
                    netloc := Url.netloc p; host := h; port := z;
                    cmd := Url.path p ++ Url.params p ++ Url.query p
                           ++ Url.fragment p;
                    browser_socket := None |})) as E.
  { unfold parse_url. rewrite Hp. cbn [obind]. cbv zeta. rewrite Hn.
    change (lit ":") with [0x3A]. unfold split. cbn [app].
    rewrite (split_go_first _ _ _ [] Hh), (split_go_none _ _ [] Ht).
    cbn [rev app index nth_error obind].
    rewrite char_in_app. cbn [char_in existsb N.eqb Pos.eqb orb].
    rewrite orb_true_r. cbn [obind].
    destruct (int t); reflexivity. }
  rewrite E. split; [| split].
  - intros z ->. cbn [obind]. eexists. repeat split.
  - intros e He. rewrite He. cbn [obind]. now rewrite (int_raises t e He).
  - intros ->. reflexivity.
Qed.

Lemma port_is_what_int_gives_witness :
  (forall z, int (lit "-1") = Ok z ->
     exists self,
       parse_url (lit "http://example.com:-1/") = Ok self /\
       host self = lit "example.com" /\ port self = z)
  /\ (forall e, int (lit "-1") = Raise e ->
        parse_url (lit "http://example.com:-1/") = Raise ValueError)
  /\ (lit "-1" = [] ->
      parse_url (lit "http://example.com:-1/") = Raise ValueError).
Proof.
  apply (port_is_what_int_gives (lit "http://example.com:-1/")
           {| Url.scheme := lit "http"; Url.netloc := lit "example.com:-1";
              Url.path := lit "/"; Url.params := [];
              Url.query := []; Url.fragment := [] |}
           (lit "example.com") (lit "-1")).
  - vm_compute. reflexivity.
  - reflexivity.
  - reflexivity.
  - reflexivity.
Defined.

(** The port of [http://example.com:-1/] is [-1], that of
    [http://example.com:99999/] is [99999]. *)
Example port_out_of_range :
  (exists self, parse_url (lit "http://example.com:-1/") = Ok self
                /\ port self = (-1)%Z) /\
  (exists self, parse_url (lit "http://example.com:99999/") = Ok self
                /\ port self = 99999%Z).
Proof. split; eexists; split; vm_compute; reflexivity. Qed.

(** * Properties of the navigation history *)

Lemma set_nth_length {A} (n : nat) (x : A) (l : list A) :
  length (set_nth n x l) = length l.
Proof.
  revert n. induction l as [| y l IH]; intros [| n]; cbn [set_nth length];
    try reflexivity. now rewrite IH.
Qed.

Lemma set_nth_same {A} (n : nat) (x : A) (l : list A) :
  (n < length l)%nat -> nth_error (set_nth n x l) n = Some x.
Proof.
  revert n. induction l as [| y l IH]; intros [| n] H; cbn in *;
    try lia; [reflexivity |]. apply IH. lia.
Qed.

Lemma set_nth_other {A} (n i : nat) (x : A) (l : list A) :
  i <> n -> nth_error (set_nth n x l) i = nth_error l i.
Proof.
  revert n i. induction l as [| y l IH]; intros [| n] [| i] H; cbn;
    try reflexivity; try congruence. apply IH. congruence.
Qed.

(** An index from 0 up to the length is the position it names. *)
Lemma list_index_in_range {A} (l : list A) (i : Z) :
  (0 <= i < Z.of_nat (length l))%Z -> list_index l i = Some (Z.to_nat i).
Proof.
  intros H. unfold list_index. cbv zeta.
  destruct (Z.leb_spec 0 i); [| lia].
  destruct (Z.ltb_spec i (Z.of_nat (length l))); [| lia]. reflexivity.
Qed.

(** The index [-1] is the last position of a list that has one. *)
Lemma list_index_last {A} (l : list A) :
  l <> [] -> list_index l (-1) = Some (pred (length l)).
Proof.
  intros H. unfold list_index. cbv zeta.
  assert (0 < length l)%nat by (destruct l; [congruence | simpl; lia]).
  change (0 <=? -1)%Z with false. cbn [andb].
  destruct (Z.leb_spec (- Z.of_nat (length l)) (-1)); [| lia].
  change (-1 <? 0)%Z with true. cbn [andb]. f_equal. lia.
Qed.

Lemma list_index_at_length {A} (l : list A) :
  list_index l (Z.of_nat (length l)) = None.
Proof.
  unfold list_index. cbv zeta.
  destruct (Z.ltb_spec (Z.of_nat (length l)) (Z.of_nat (length l))); [lia |].
  rewrite andb_false_r.
  destruct (Z.ltb_spec (Z.of_nat (length l)) 0); [lia |].
  now rewrite andb_false_r.
Qed.

(** [put_entry] keeps the cursor and the page list, and overwrites one
    entry or appends one. *)
Lemma put_entry_spec (self : Browser) (entry : str) :
  historyPointer (put_entry self entry) = historyPointer self /\
  shown (put_entry self entry) = shown self /\
  content (put_entry self entry) = content self /\
  ((exists n, list_index (history self) (historyPointer self) = Some n /\
              history (put_entry self entry) = set_nth n entry (history self))
   \/ (list_index (history self) (historyPointer self) = None /\
       history (put_entry self entry) = history self ++ [entry])).
Proof.
  unfold put_entry, setitem.
  destruct (list_index (history self) (historyPointer self)) as [n |];
    cbn; repeat split; eauto.
Qed.

Lemma put_entry_length (self : Browser) (entry : str) :
  (length (history self) <= length (history (put_entry self entry))
   <= S (length (history self)))%nat.
Proof.
  destruct (put_entry_spec self entry)
    as (_ & _ & _ & [(n & _ & ->) | (_ & ->)]).
  - rewrite set_nth_length. lia.
  - rewrite length_app. simpl. lia.
Qed.

(** [show_url] touches neither the history nor the cursor, and what it
    does to the world and shows is what [fetch] does and returns. *)
Lemma show_url_spec fuel net self url w r self' w' :
  show_url fuel net self url w = Some (r, (self', w')) ->
  history self' = history self /\
  historyPointer self' = historyPointer self /\
  content self' = content self /\
  ((exists e, r = Raise e /\ self' = self /\
              Website_init net url w = (Raise e, w')) \/
   (exists page, r = Ok tt /\ self' = SetPage self page /\ page <> [] /\
                 fetch fuel net url w = Some (Ok page, w'))).
Proof.
  unfold show_url, fetch.
  destruct (Website_init net url w) as [[web | e] w1].
  2: { intros [= <- <- <-]. repeat split; auto. left. eauto. }
  pose proof (get_html_session fuel net web w1) as Hs.
  destruct (get_html fuel net web w1) as [[r1 w2] |]; [| discriminate].
  destruct Hs as [(page & -> & Hpage) _].
  destruct page as [| c page]; [congruence |]. cbn [truthy].
  intros [= <- <- <-]. repeat split; auto. right.
  exists (c :: page). repeat split; auto.
Qed.

Lemma home_spec (self : Browser) (event : home_event) :
  historyPointer (home self event) = historyPointer self /\
  shown (home self event) = shown self ++ [content self] /\
  content (home self event) = content self.
Proof.
  unfold home. cbv zeta.
  destruct (negb _); [| repeat split].
  destruct (put_entry_spec (SetPage self (content self)) HOME)
    as (-> & -> & -> & _). repeat split.
Qed.

Lemma home_marked (self : Browser) (text : str) :
  text = REFRESH \/ text = BACKWARD ->
  home self (Marker text) = SetPage self (content self).
Proof.
  intros [-> | ->]; reflexivity.
Qed.

Lemma home_length (self : Browser) (event : home_event) :
  (length (history self) <= length (history (home self event))
   <= S (length (history self)))%nat.
Proof.
  unfold home. cbv zeta. destruct (negb _).
  - apply (put_entry_length (SetPage self (content self)) HOME).
  - simpl. lia.
Qed.

(** Every handler keeps the cursor in range and the history from
    shrinking. *)
Lemma handle_keeps_range fuel net a self w r self' w' :
  cursor_in_range self ->
  handle fuel net a self w = Some (r, (self', w')) ->
  cursor_in_range self' /\
  (length (history self) <= length (history self')
   <= S (length (history self)))%nat.
Proof.
  unfold cursor_in_range. intros Hr H.
  destruct a as [text | | | |]; cbn [handle] in H.
  - unfold load_page, fetch_html in H.
    destruct (truthy (entered_url text)).
    2: { injection H as <- <- <-. lia. }
    destruct (show_url fuel net self (entered_url text) w)
      as [[[[] | e] [s1 w1]] |] eqn:Hs; [| | discriminate].
    + apply show_url_spec in Hs as (Hh & Hp & _).
      injection H as <- <- <-.
      set (s2 := set_historyPointer s1 (historyPointer s1 + 1)).
      assert (history s2 = history self) as Hh2 by exact Hh.
      assert (historyPointer s2 = historyPointer self + 1)%Z as Hp2
        by (subst s2; cbn; lia).
      destruct (put_entry_spec s2 (entered_url text))
        as (Hp3 & _ & _ & [(n & Hn & Hh3) | (Hn & Hh3)]);
        rewrite Hp3, Hh3, Hp2, ?set_nth_length, ?length_app, Hh2.
      * rewrite Hh2, Hp2 in Hn.
        destruct (Z.eq_dec (historyPointer self + 1)
                           (Z.of_nat (length (history self)))) as [E | E].
        { rewrite E, list_index_at_length in Hn. discriminate. }
        lia.
      * cbn [length]. lia.
    + apply show_url_spec in Hs as (Hh & Hp & _).
      injection H as <- <- <-. rewrite Hh, Hp. lia.
  - injection H as <- <- <-.
    destruct (home_spec self ButtonEvent) as (-> & _ & _).
    pose proof (home_length self ButtonEvent). lia.
  - unfold refreshPage in H.
    assert (forall s, s = home self (Marker REFRESH) ->
              (-1 <= historyPointer s < Z.of_nat (length (history s)))%Z /\
              (length (history self) <= length (history s)
               <= S (length (history self)))%nat) as Hhome.
    { intros s ->. rewrite home_marked by (now left). cbn. lia. }
    destruct (historyPointer self =? -1)%Z.
    { injection H as <- <- <-. now apply Hhome. }
    destruct (getitem (history self) (historyPointer self)) as [entry | e].
    2: { injection H as <- <- <-. lia. }
    destruct (str_eqb entry HOME).
    { injection H as <- <- <-. now apply Hhome. }
    unfold getWeb in H.
    destruct (getitem (history self) (historyPointer self)) as [u | e].
    2: { injection H as <- <- <-. lia. }
    apply show_url_spec in H as (-> & -> & _). lia.
  - unfold backward in H.
    destruct (Z.gtb_spec (historyPointer self) 0).
    { unfold getWeb in H.
      destruct (getitem _ _) as [u | e].
      2: { injection H as <- <- <-. cbn. lia. }
      apply show_url_spec in H as (-> & -> & _). cbn. lia. }
    destruct (Z.eqb_spec (historyPointer self) 0).
    { injection H as <- <- <-. rewrite home_marked by (now right). cbn. lia. }
    injection H as <- <- <-. lia.
  - unfold forward in H.
    destruct (Z.ltb_spec (historyPointer self)
                         (Z.of_nat (length (history self)) - 1)).
    { unfold getWeb in H.
      destruct (getitem _ _) as [u | e].
      2: { injection H as <- <- <-. cbn. lia. }
      apply show_url_spec in H as (-> & -> & _). cbn. lia. }
    injection H as <- <- <-. lia.
Qed.

Lemma getitem_in_range {A} (l : list A) (i : Z) :
  (0 <= i < Z.of_nat (length l))%Z ->
  exists x, getitem l i = Ok x /\ nth_error l (Z.to_nat i) = Some x.
Proof.
  intros H. unfold getitem, index. rewrite (list_index_in_range l i H).
  destruct (nth_error l (Z.to_nat i)) as [x |] eqn:E; [eauto |].
  apply nth_error_None in E. lia.
Qed.

(** X12: whatever the user does, in any order, the cursor stays on an
    entry of the history or just before the first one, and the history
    never gets shorter: each action leaves its length or adds one entry. *)
Theorem navigation_keeps_cursor_in_range
    (fuel : nat) (net : network) (actions : list action)
    (self self' : Browser) (w w' : world) :
  cursor_in_range self ->
  handle_all fuel net actions self w = Some (self', w') ->
  cursor_in_range self' /\
  (length (history self) <= length (history self')
   <= length (history self) + length actions)%nat.
Proof.
  revert self w. induction actions as [| a actions IH]; intros self w Hr H.
  - injection H as <- <-. split; [exact Hr | simpl; lia].
  - cbn [handle_all] in H.
    destruct (handle fuel net a self w) as [[r [s1 w1]] |] eqn:Ha;
      [| discriminate].
    apply handle_keeps_range in Ha as [Hr1 Hl1]; [| exact Hr].
    destruct (IH s1 w1 Hr1 H) as [Hr2 Hl2]. split; [exact Hr2 |].
    cbn [length]. lia.
Qed.

Lemma navigation_keeps_cursor_in_range_witness :
  cursor_in_range (fst browsed) /\
  (length (history (Browser_init (lit "<h1>home</h1>")))
   <= length (history (fst browsed))
   <= length (history (Browser_init (lit "<h1>home</h1>")))
      + length browsing)%nat.
Proof.
  apply (navigation_keeps_cursor_in_range 1
           (always (serving [ascii_bytes (lit "hi")])) browsing
           (Browser_init (lit "<h1>home</h1>")) (fst browsed)
           world0 (snd browsed)).
  - unfold cursor_in_range. simpl. lia.
  - vm_compute. reflexivity.
Defined.

(** X13: with the cursor in range no handler fails on the history: the
    only exception that leaves a handler is one that the constructor of
    [Website] raised for the URL to show, and the frame is then left with
    its history as it was. *)
Theorem handler_raises_only_from_constructor
    (fuel : nat) (net : network) (a : action) (self self' : Browser)
    (w w' : world) (e : exn) :
  cursor_in_range self ->
  handle fuel net a self w = Some (Raise e, (self', w')) ->
  history self' = history self /\
  exists url, Website_init net url w = (Raise e, w').
Proof.
  unfold cursor_in_range. intros Hr H.
  assert (forall s u r s' w1,
             history s = history self ->
             show_url fuel net s u w = Some (r, (s', w1)) ->
             r = Raise e -> w1 = w' -> s' = self' ->
             history self' = history self /\
             exists url, Website_init net url w = (Raise e, w')) as Hshow.
  { intros s u r s' w1 Hh Hs -> -> ->.
    apply show_url_spec in Hs
      as (Hh' & _ & _ & [(e' & [= <-] & _ & Hi) | (page & [=] & _)]).
    split; [congruence | eauto]. }
  assert (forall s i,
             history s = history self -> historyPointer s = i ->
             (0 <= i < Z.of_nat (length (history self)))%Z ->
             getWeb fuel net s w = Some (Raise e, (self', w')) ->
             history self' = history self /\
             exists url, Website_init net url w = (Raise e, w')) as Hweb.
  { intros s i Hh Hp Hi Hg. unfold getWeb in Hg. rewrite Hh, Hp in Hg.
    destruct (getitem_in_range (history self) i Hi) as (u & Hu & _).
    rewrite Hu in Hg. eapply Hshow; eauto. }
  destruct a as [text | | | |]; cbn [handle] in H.
  - unfold load_page, fetch_html in H.
    destruct (truthy (entered_url text)); [| discriminate].
    destruct (show_url fuel net self (entered_url text) w)
      as [[[[] | e'] [s1 w1]] |] eqn:Hs; try discriminate.
    injection H as <- <- <-. eapply Hshow; eauto.
  - discriminate.
  - unfold refreshPage in H.
    destruct (Z.eqb_spec (historyPointer self) (-1)); [discriminate |].
    assert (0 <= historyPointer self < Z.of_nat (length (history self)))%Z
      as Hi by lia.
    destruct (getitem_in_range (history self) _ Hi) as (u & Hu & _).
    rewrite Hu in H. destruct (str_eqb u HOME); [discriminate |].
    apply (Hweb self (historyPointer self));
      [reflexivity | reflexivity | lia | exact H].
  - unfold backward in H.
    destruct (Z.gtb_spec (historyPointer self) 0).
    + apply (Hweb (set_historyPointer self (historyPointer self - 1))
                  (historyPointer self - 1)%Z);
        [reflexivity | reflexivity | lia | exact H].
    + destruct (historyPointer self =? 0)%Z; discriminate.
  - unfold forward in H.
    destruct (Z.ltb_spec (historyPointer self)
                         (Z.of_nat (length (history self)) - 1));
      [| discriminate].
    apply (Hweb (set_historyPointer self (historyPointer self + 1))
                (historyPointer self + 1)%Z);
      [reflexivity | reflexivity | lia | exact H].
Qed.

Lemma handler_raises_only_from_constructor_witness :
  history (Browser_init []) = history (Browser_init []) /\
  exists url, Website_init unreachable url world0 = (Raise ValueError, world0).
Proof.
  apply (handler_raises_only_from_constructor 1 unreachable
           (Go (lit "example.com:abc")) (Browser_init []) (Browser_init [])
           world0 world0 ValueError).
  - unfold cursor_in_range. simpl. lia.
  - vm_compute. reflexivity.
Defined.

(** X14: going back and then forward comes back to the same place: from
    a cursor on an entry, [backward] followed by [forward] leaves the
    history and the cursor as they were (the page of the entry is fetched
    again). *)
Theorem backward_then_forward
    (fuel : nat) (net : network) (self s1 s2 : Browser) (w w1 w2 : world)
    (r1 r2 : outcome unit) :
  cursor_in_range self ->
  (0 <= historyPointer self)%Z ->
  backward fuel net self w = Some (r1, (s1, w1)) ->
  forward fuel net s1 w1 = Some (r2, (s2, w2)) ->
  history s2 = history self /\ historyPointer s2 = historyPointer self.
Proof.
  unfold cursor_in_range. intros Hr H0 Hb Hf.
  assert (history s1 = history self
          /\ historyPointer s1 = (historyPointer self - 1)%Z) as [Hh1 Hp1].
  { unfold backward in Hb.
    destruct (Z.gtb_spec (historyPointer self) 0).
    - unfold getWeb in Hb.
      destruct (getitem _ _) as [u | e].
      + apply show_url_spec in Hb as (-> & -> & _). now cbn.
      + injection Hb as <- <- <-. now cbn.
    - destruct (Z.eqb_spec (historyPointer self) 0); [| lia].
      injection Hb as <- <- <-. rewrite home_marked by (now right). now cbn. }
  unfold forward in Hf. rewrite Hh1, Hp1 in Hf.
  destruct (Z.ltb_spec (historyPointer self - 1)
                       (Z.of_nat (length (history self)) - 1)); [| lia].
  unfold getWeb in Hf.
  destruct (getitem _ _) as [u | e].
  - apply show_url_spec in Hf as (-> & -> & _). cbn. split; [easy | lia].
  - injection Hf as <- <- <-. cbn. split; [easy | lia].
Qed.

Lemma backward_then_forward_witness :
  history (fst browsed) = history (fst browsed) /\
  historyPointer (fst browsed) = historyPointer (fst browsed).
Proof.
  apply (backward_then_forward 1 unreachable (fst browsed)
           (SetPage (set_historyPointer (fst browsed) 0) CONNECT_ERROR)
           (SetPage (SetPage (fst browsed) CONNECT_ERROR) CONNECT_ERROR)
           (snd browsed)
           (emit (EConnect 4 (Some (create_unverified_context,
                                    lit "example.com"))
                           (lit "example.com", 443%Z) false)
                 {| next_id := 5; trace := trace (snd browsed) |})
           (emit (EConnect 5 None ([], 80%Z) false)
                 {| next_id := 6;
                    trace := trace (snd browsed)
                      ++ [EConnect 4 (Some (create_unverified_context,
                                            lit "example.com"))
                                   (lit "example.com", 443%Z) false] |})
           (Ok tt) (Ok tt)).
  - unfold cursor_in_range. simpl. lia.
  - simpl. lia.
  - vm_compute. reflexivity.
  - vm_compute. reflexivity.
Defined.

(** X15: a page that [fetch_html] loads is the page that the fetch of
    its URL returns, which is never empty (the "failed to load" branch is
    never taken); the URL is recorded just after the cursor, which moves
    onto it, and every other entry of the history is kept, the entries
    further on as well. *)
Theorem fetch_html_records_visit
    (fuel : nat) (net : network) (self self' : Browser) (url : str)
    (w w' : world) :
  cursor_in_range self ->
  url <> [] ->
  fetch_html fuel net self url w = Some (Ok tt, (self', w')) ->
  (exists page,
      fetch fuel net url w = Some (Ok page, w') /\ page <> [] /\
      shown self' = shown self ++ [page]) /\
  historyPointer self' = (historyPointer self + 1)%Z /\
  nth_error (history self') (Z.to_nat (historyPointer self + 1)) = Some url /\
  forall i,
    i <> Z.to_nat (historyPointer self + 1) ->
    (i < length (history self))%nat ->
    nth_error (history self') i = nth_error (history self) i.
Proof.
  unfold cursor_in_range, fetch_html. intros Hr Hu H.
  destruct url as [| c url]; [congruence |]. cbn [truthy] in H.
  destruct (show_url fuel net self (c :: url) w)
    as [[[[] | e] [s1 w1]] |] eqn:Hs; try discriminate.
  apply show_url_spec in Hs
    as (Hh & Hp & _ & [(e & [=] & _) | (page & _ & -> & Hpage & Hf)]).
  cbv zeta in H. injection H as <- <-.
  set (s2 := set_historyPointer (SetPage self page)
               (historyPointer self + 1)).
  destruct (put_entry_spec s2 (c :: url))
    as (Hp3 & Hs3 & _ & [(n & Hn & Hh3) | (Hn & Hh3)]);
    rewrite Hp3, Hs3, Hh3; subst s2; cbn in Hn |- *.
  - assert (historyPointer self + 1 < Z.of_nat (length (history self)))%Z
      as Hlt.
    { destruct (Z.eq_dec (historyPointer self + 1)
                         (Z.of_nat (length (history self)))) as [E | E];
        [| lia].
      rewrite E, list_index_at_length in Hn. discriminate. }
    rewrite list_index_in_range in Hn by lia. injection Hn as <-.
    split; [eauto |]. split; [reflexivity |]. split.
    + apply set_nth_same. lia.
    + intros i Hi _. now apply set_nth_other.
  - assert (historyPointer self + 1 = Z.of_nat (length (history self)))%Z
      as E.
    { destruct (Z.eq_dec (historyPointer self + 1)
                         (Z.of_nat (length (history self)))) as [E | E];
        [exact E |].
      rewrite list_index_in_range in Hn by lia. discriminate. }
    rewrite E, Nat2Z.id.
    split; [eauto |]. split; [reflexivity |]. split.
    + rewrite nth_error_app2 by lia. now rewrite Nat.sub_diag.
    + intros i _ Hi. now apply nth_error_app1.
Qed.

Lemma fetch_html_records_visit_witness :
  (exists page,
      fetch 1 unreachable (lit "https://example.org") (snd browsed)
      = Some (Ok page,
              emit (EConnect 4 (Some (create_unverified_context,
                                      lit "example.org"))
                              (lit "example.org", 443%Z) false)
                   {| next_id := 5; trace := trace (snd browsed) |})
      /\ page <> [] /\
      shown (put_entry (set_historyPointer
                          (SetPage (fst browsed) CONNECT_ERROR) 2)
                       (lit "https://example.org"))
      = shown (fst browsed) ++ [page]) /\
  historyPointer (put_entry (set_historyPointer
                               (SetPage (fst browsed) CONNECT_ERROR) 2)
                            (lit "https://example.org"))
  = (historyPointer (fst browsed) + 1)%Z /\
  nth_error (history (put_entry (set_historyPointer
                                   (SetPage (fst browsed) CONNECT_ERROR) 2)
                                (lit "https://example.org")))
            (Z.to_nat (historyPointer (fst browsed) + 1))
  = Some (lit "https://example.org") /\
  forall i,
    i <> Z.to_nat (historyPointer (fst browsed) + 1) ->
    (i < length (history (fst browsed)))%nat ->
    nth_error (history (put_entry (set_historyPointer
                                     (SetPage (fst browsed) CONNECT_ERROR) 2)
                                  (lit "https://example.org"))) i
    = nth_error (history (fst browsed)) i.
Proof.
  apply (fetch_html_records_visit 1 unreachable (fst browsed)).
  - unfold cursor_in_range. simpl. lia.
  - discriminate.
  - vm_compute. reflexivity.
Defined.

(** X16: the home button shows the landing page, leaves the cursor where
    it is, and writes ['Home'] over an entry of the history instead of
    adding one: over the entry under the cursor, and, when the cursor is
    before the first entry, over the last entry (the index [-1] counts
    from the end); only an empty history gets ['Home'] appended. *)
Theorem home_button_overwrites (self : Browser) :
  cursor_in_range self ->
  shown (home self ButtonEvent) = shown self ++ [content self] /\
  historyPointer (home self ButtonEvent) = historyPointer self /\
  (history self = [] -> history (home self ButtonEvent) = [HOME]) /\
  ((0 <= historyPointer self)%Z ->
   history (home self ButtonEvent)
   = set_nth (Z.to_nat (historyPointer self)) HOME (history self)) /\
  (historyPointer self = (-1)%Z -> history self <> [] ->
   history (home self ButtonEvent)
   = set_nth (pred (length (history self))) HOME (history self)).
Proof.
  unfold cursor_in_range. intros Hr.
  destruct (home_spec self ButtonEvent) as (Hp & Hs & _).
  split; [exact Hs |]. split; [exact Hp |].
  unfold home. cbv zeta. cbn [negb].
  destruct (put_entry_spec (SetPage self (content self)) HOME)
    as (_ & _ & _ & H). cbn [history historyPointer SetPage] in H.
  split; [| split].
  - intros E. rewrite E in *. cbn [length] in Hr.
    assert (historyPointer self = (-1)%Z) as Ep by lia. rewrite Ep in H.
    destruct H as [(n & Hn & _) | (_ & ->)]; [discriminate | reflexivity].
  - intros H0. rewrite list_index_in_range in H by lia.
    destruct H as [(n & [= <-] & ->) | (Hn & _)]; [reflexivity | discriminate].
  - intros Ep Hne. rewrite Ep, (list_index_last _ Hne) in H.
    destruct H as [(n & [= <-] & ->) | (Hn & _)]; [reflexivity | discriminate].
Qed.

Lemma home_button_overwrites_witness :
  shown (home (set_historyPointer (fst browsed) (-1)) ButtonEvent)
  = shown (set_historyPointer (fst browsed) (-1))
    ++ [content (set_historyPointer (fst browsed) (-1))] /\
  historyPointer (home (set_historyPointer (fst browsed) (-1)) ButtonEvent)
  = historyPointer (set_historyPointer (fst browsed) (-1)) /\
  (history (set_historyPointer (fst browsed) (-1)) = [] ->
   history (home (set_historyPointer (fst browsed) (-1)) ButtonEvent)
   = [HOME]) /\
  ((0 <= historyPointer (set_historyPointer (fst browsed) (-1)))%Z ->
   history (home (set_historyPointer (fst browsed) (-1)) ButtonEvent)
   = set_nth (Z.to_nat (historyPointer
                          (set_historyPointer (fst browsed) (-1))))
             HOME (history (set_historyPointer (fst browsed) (-1)))) /\
  (historyPointer (set_historyPointer (fst browsed) (-1)) = (-1)%Z ->
   history (set_historyPointer (fst browsed) (-1)) <> [] ->
   history (home (set_historyPointer (fst browsed) (-1)) ButtonEvent)
   = set_nth (pred (length (history (set_historyPointer (fst browsed) (-1)))))
             HOME (history (set_historyPointer (fst browsed) (-1)))).
Proof.
  apply (home_button_overwrites (set_historyPointer (fst browsed) (-1))).
  unfold cursor_in_range. simpl. lia.
Defined.

(** With the cursor before the first of three entries, the home button
    replaces the third. *)
Example home_button_overwrites_last :
  history (home (set_historyPointer (fst browsed) (-1)) ButtonEvent)
  = [lit "https://example.com"; lit "Home"; lit "Home"].
Proof. reflexivity. Qed.

(** X17: refreshing never changes the history or the cursor, whether it
    shows the landing page or fetches the page of the entry under the
    cursor again. *)
Theorem refresh_keeps_history
    (fuel : nat) (net : network) (self self' : Browser) (w w' : world)
    (r : outcome unit) :
  refreshPage fuel net self w = Some (r, (self', w')) ->
  history self' = history self /\
  historyPointer self' = historyPointer self.
Proof.
  unfold refreshPage. intros H.
  assert (history (home self (Marker REFRESH)) = history self /\
          historyPointer (home self (Marker REFRESH)) = historyPointer self)
    as Hhome by (rewrite home_marked by (now left); now cbn).
  destruct (historyPointer self =? -1)%Z.
  { now injection H as <- <- <-. }
  destruct (getitem (history self) (historyPointer self)) as [entry | e].
  2: { now injection H as <- <- <-. }
  destruct (str_eqb entry HOME).
  { now injection H as <- <- <-. }
  unfold getWeb in H.
  destruct (getitem (history self) (historyPointer self)) as [u | e].
  - now apply show_url_spec in H as (-> & -> & _).
  - now injection H as <- <- <-.
Qed.

Lemma refresh_keeps_history_witness :
  history (SetPage (fst browsed) (content (fst browsed)))
  = history (fst browsed) /\
  historyPointer (SetPage (fst browsed) (content (fst browsed)))
  = historyPointer (fst browsed).
Proof.
  apply (refresh_keeps_history 1 unreachable (fst browsed) _
           (snd browsed) (snd browsed) (Ok tt)).
  vm_compute. reflexivity.
Defined.

(** X18: only [refreshPage] knows the entry ['Home']. When [backward] or
    [forward] moves the cursor onto an entry ['Home'], [getWeb] takes it
    for a URL: instead of the landing page, a connection to the empty
    host on port 80, without TLS, is attempted. *)
Theorem home_entry_is_fetched
    (fuel : nat) (net : network) (a : action) (self self' : Browser)
    (w w' : world) (r : outcome unit) (i : Z) :
  (a = PressBackward /\ (0 < historyPointer self)%Z
   /\ i = (historyPointer self - 1)%Z)
  \/ (a = PressForward
      /\ (historyPointer self < Z.of_nat (length (history self)) - 1)%Z
      /\ i = (historyPointer self + 1)%Z) ->
  getitem (history self) i = Ok HOME ->
  handle fuel net a self w = Some (r, (self', w')) ->
  historyPointer self' = i /\
  exists established rest,
    trace w' = trace w ++ EConnect (next_id w) None ([], 80%Z) established
                          :: rest.
Proof.
  intros Ha Hi H.
  assert (getWeb fuel net (set_historyPointer self i) w
          = Some (r, (self', w'))) as Hg.
  { destruct Ha as [(-> & Hp & ->) | (-> & Hp & ->)]; cbn [handle] in H.
    - unfold backward in H.
      destruct (Z.gtb_spec (historyPointer self) 0); [exact H | lia].
    - unfold forward in H.
      destruct (Z.ltb_spec (historyPointer self)
                           (Z.of_nat (length (history self)) - 1));
        [exact H | lia]. }
  clear H Ha. unfold getWeb in Hg.
  cbn [history historyPointer set_historyPointer] in Hg. rewrite Hi in Hg.
  destruct (show_url_spec _ _ _ _ _ _ _ _ Hg) as (_ & Hp & _).
  split; [exact Hp |].
  unfold show_url, Website_init in Hg.
  replace (parse_url HOME)
    with (Ok {| url := HOME;
                parsed := {| Url.scheme := []; Url.netloc := [];
                             Url.path := HOME; Url.params := [];
                             Url.query := []; Url.fragment := [] |};
                scheme := []; netloc := []; host := []; port := 80%Z;
                cmd := HOME; browser_socket := None |}) in Hg
    by (vm_compute; reflexivity).
  cbn [new_socket host port Z.eqb Pos.eqb] in Hg. cbv zeta in Hg.
  match type of Hg with
  | context [net ?n ?tls ?address] => destruct (net n tls address) as [p | e]
  end.
  - cbv beta iota in Hg.
    match type of Hg with
    | context [get_html fuel net ?web ?w1] =>
      pose proof (get_html_session fuel net web w1) as Hs;
      destruct (get_html fuel net web w1) as [[r1 w2] |]; [| discriminate]
    end.
    destruct Hs as [(page & -> & Hpage) (evs & Htr & _)].
    cbn [emit trace] in Htr.
    destruct page as [| c page]; [congruence |]. cbn [truthy] in Hg.
    injection Hg as <- <- <-. unfold close.
    cbn [browser_socket set_browser_socket sock_id emit trace].
    rewrite Htr, <- !app_assoc. cbn [app]. eauto.
  - destruct (is_socket_error e).
    + cbn [get_html browser_socket set_browser_socket] in Hg.
      destruct fuel; [discriminate |].
      cbn [get_html browser_socket set_browser_socket] in Hg.
      assert (truthy CONNECT_ERROR = true) as Ht by reflexivity.
      rewrite Ht in Hg. injection Hg as <- <- <-.
      unfold close. cbn. eauto.
    + injection Hg as <- <- <-. cbn. eauto.
Qed.

Lemma home_entry_is_fetched_witness :
  historyPointer (SetPage (set_historyPointer (fst browsed) 1) CONNECT_ERROR)
  = 1%Z /\
  exists established rest,
    trace (emit (EConnect 4 None ([], 80%Z) false)
                {| next_id := 5; trace := trace (snd browsed) |})
    = trace (snd browsed)
      ++ EConnect (next_id (snd browsed)) None ([], 80%Z) established :: rest.
Proof.
  apply (home_entry_is_fetched 1 unreachable PressForward
           (set_historyPointer (fst browsed) 0)
           (SetPage (set_historyPointer (fst browsed) 1) CONNECT_ERROR)
           (snd browsed) _ (Ok tt) 1%Z).
  - right. split; [reflexivity |]. split; [simpl; lia | reflexivity].
  - reflexivity.
  - vm_compute. reflexivity.
Defined.

(** ** The address bar *)

Lemma split_netloc_plain (s : str) :
  char_in 0x2F s = false -> char_in 0x3F s = false ->
  char_in 0x23 s = false ->
  Url.split_netloc s = (s, []).
Proof.
  unfold char_in. induction s as [| c s IH]; [reflexivity |].
  cbn [existsb Url.split_netloc]. intros H1 H2 H3.
  apply orb_false_elim in H1 as [H1 H1'].
  apply orb_false_elim in H2 as [H2 H2'].
  apply orb_false_elim in H3 as [H3 H3'].
  rewrite (N.eqb_sym c 0x2F), H1, (N.eqb_sym c 0x3F), H2,
    (N.eqb_sym c 0x23), H3.
  cbn [orb]. now rewrite IH.
Qed.

Lemma startswith_char (p s : str) (c : N) :
  startswith p s = true -> In c p -> char_in c s = true.
Proof.
  intros H Hin. apply startswith_iff in H as [post ->].
  rewrite char_in_app. apply orb_true_iff. left.
  unfold char_in. apply existsb_exists. exists c.
  split; [exact Hin | apply N.eqb_refl].
Qed.

Lemma filter_all (f : N -> bool) (s : str) :
  Forall (fun c => f c = true) s -> filter f s = s.
Proof.
  induction 1 as [| c s Hc _ IH]; [reflexivity |].
  cbn [filter]. now rewrite Hc, IH.
Qed.

(** X19: a text typed without a scheme goes out as [https]: for a bare
    host name (a text without any of [: / ? # [ ]], without the tabs and
    line ends that the parser removes, and without the characters that it
    refuses in an authority) [load_page] makes the URL [https://]
    followed by the text, [__parse_url] resolves it to that host on port
    443, and the request asks for [/]. *)
Theorem bare_host_goes_to_https (text : str) :
  Forall (fun c => ~ In c [0x3A; 0x2F; 0x3F; 0x23; 0x5B; 0x5D;
                           0x09; 0x0A; 0x0D]) text ->
  Forall (fun c => ~ In c Url.delimiters_under_NFKC) text ->
  entered_url text = lit "https://" ++ text /\
  exists self,
    parse_url (entered_url text) = Ok self /\
    host self = text /\ port self = 443%Z /\
    request_of self
    = lit "GET / HTTP/1.1" ++ CRLF ++ lit "Host: " ++ text ++ CRLF
      ++ lit "Connection: close" ++ CRLF ++ CRLF.
Proof.
  intros Hplain Hnfkc.
  assert (forall c, In c [0x3A; 0x2F; 0x3F; 0x23; 0x5B; 0x5D] ->
                    char_in c text = false) as Hno.
  { intros c Hc. apply char_in_false_iff. intros Hin.
    rewrite Forall_forall in Hplain. apply (Hplain c Hin).
    cbn [In] in Hc |- *. tauto. }
  assert (entered_url text = lit "https://" ++ text) as E.
  { unfold entered_url.
    destruct (startswith (lit "http://") text) eqn:E1.
    { apply (startswith_char _ _ 0x3A) in E1; [| vm_compute; tauto].
      rewrite Hno in E1 by (simpl; tauto). discriminate. }
    destruct (startswith (lit "https://") text) eqn:E2.
    { apply (startswith_char _ _ 0x3A) in E2; [| vm_compute; tauto].
      rewrite Hno in E2 by (simpl; tauto). discriminate. }
    reflexivity. }
  split; [exact E |]. rewrite E.
  assert (Url.urlparse (lit "https://" ++ text)
          = Ok {| Url.scheme := lit "https"; Url.netloc := text;
                  Url.path := []; Url.params := []; Url.query := [];
                  Url.fragment := [] |}) as Hp.
  { unfold Url.urlparse, Url.split_scheme. cbv zeta.
    change (dropwhile (fun c => c <=? 0x20) (lit "https://" ++ text))
      with (lit "https://" ++ text).
    rewrite filter_app.
    change (filter _ (lit "https://")) with (lit "https://").
    rewrite filter_all.
    2: { eapply Forall_impl; [| exact Hplain]. cbv beta. intros c Hc.
         cbn [In] in Hc.
         destruct (N.eqb_spec c 0x09) as [-> |]; [tauto |].
         destruct (N.eqb_spec c 0x0D) as [-> |]; [tauto |].
         destruct (N.eqb_spec c 0x0A) as [-> |]; [tauto |].
         reflexivity. }
    change (lit "https://" ++ text)
      with (lit "https" ++ 0x3A :: lit "//" ++ text).
    change (lit ":") with [0x3A].
    rewrite (split_once_first 0x3A (lit "https") (lit "//" ++ text))
      by reflexivity.
    change (lit "https") with [0x68; 0x74; 0x74; 0x70; 0x73].
    cbv beta iota.
    change (is_alpha 0x68 && forallb Url.is_scheme_char
                                     [0x68; 0x74; 0x74; 0x70; 0x73])
      with true. cbv beta iota.
    change (lower [0x68; 0x74; 0x74; 0x70; 0x73]) with (lit "https").
    change (startswith (lit "//") (lit "//" ++ text)) with true.
    cbv beta iota. change (skipn 2 (lit "//" ++ text)) with text.
    rewrite split_netloc_plain by (apply Hno; simpl; tauto).
    rewrite (Hno 0x5B), (Hno 0x5D) by (simpl; tauto).
    cbn [xorb andb]. cbv beta iota.
    assert (Url.checknetloc text = true) as ->.
    { unfold Url.checknetloc. apply negb_true_iff.
      apply not_true_is_false. intros Hex.
      apply existsb_exists in Hex as (c & Hin & Hc).
      rewrite Forall_forall in Hnfkc. apply (Hnfkc c Hin).
      unfold char_in in Hc. apply existsb_exists in Hc as (d & Hd & Hcd).
      apply N.eqb_eq in Hcd. now subst d. }
    reflexivity. }
  unfold parse_url. rewrite Hp. cbn [obind]. cbv zeta.
  cbn [Url.scheme Url.netloc Url.path Url.params Url.query Url.fragment].
  change (lit ":") with [0x3A]. unfold split.
  rewrite (split_go_none _ _ [] (Hno 0x3A ltac:(simpl; tauto))).
  rewrite (Hno 0x3A) by (simpl; tauto).
  cbn [rev app index nth_error obind].
  eexists. split; [reflexivity |]. repeat split.
Qed.

Lemma bare_host_goes_to_https_witness :
  entered_url (lit "example.com") = lit "https://" ++ lit "example.com" /\
  exists self,
    parse_url (entered_url (lit "example.com")) = Ok self /\
    host self = lit "example.com" /\ port self = 443%Z /\
    request_of self
    = lit "GET / HTTP/1.1" ++ CRLF ++ lit "Host: " ++ lit "example.com"
      ++ CRLF ++ lit "Connection: close" ++ CRLF ++ CRLF.
Proof.
  apply (bare_host_goes_to_https (lit "example.com")).
  - repeat constructor; vm_compute; intuition discriminate.
  - repeat constructor; vm_compute; intuition discriminate.
Defined.

(** The parser removes a tab from the URL: the host that goes out is not
    the text typed. *)
Example tab_in_host_is_removed :
  exists self,
    parse_url (entered_url [0x61; 0x09; 0x62]) = Ok self /\
    host self = lit "ab".
Proof. eexists. split; vm_compute; reflexivity. Qed.

(** The test for a scheme is on lower-case letters: [HTTP://example.com]
    goes out as [https://HTTP://example.com], an [https] URL whose
    authority is [HTTP:], and raises [ValueError]. *)
Example upper_case_scheme_is_prefixed :
  entered_url (lit "HTTP://example.com") = lit "https://HTTP://example.com"
  /\ parse_url (entered_url (lit "HTTP://example.com")) = Raise ValueError.
Proof. split; vm_compute; reflexivity. Qed.
